(** * chk: extended DNS check -- the concurrent resolution pipeline

    A shallow embedding of [chk.go] (the variant with contexts and the
    result channel): the data model, the metadata fetch [getIPInfo], the
    per-address enricher [lookupIP] with its two inner goroutines, the
    renderer [printResult], input validation, and [main] with its
    launch loop, collector, signal handler and select loop.

    Sequential code is a function.  Calls into the Go standard library
    (resolver, HTTP client, JSON decoder, [net.IP] methods) are the
    fields of a [World]; every theorem holds for every world.
    Concurrent code is an executable step function over an explicit
    state, driven by a schedule: the list of the steps that the Go
    scheduler and the environment (signal, ticker) let happen, in
    order.  A property of every run is a property of every schedule;
    the interleaving is sequentially consistent.

    Contents: data model; rendering; the enricher; validation and the
    family filter; the pipeline of [main]; [main]; the sequential
    variant of [lookupIP]; observations, the measure of remaining work,
    a concrete world and the invariant; then the proofs. *)

From Stdlib Require Import ZArith String Ascii List Bool Lia.
From stdpp Require Import base tactics option list strings.

(** ** Data model *)

(** A Go [error] is modelled by the text its [Error()] method returns,
    which is all that [%v] and [printResult] ever look at. *)
Definition error := string.

(** [type IPInfo struct] *)
Record IPInfo := mkIPInfo {
  info_IP  : string;
  Hostname : string;
  City     : string;
  Region   : string;
  Country  : string;
  Loc      : string;
  Org      : string
}.

(** [type Result struct]; the field [IPInfo *IPInfo] is [Info], a nil
    pointer is [None], a nil [error] is [None]. *)
Record Result := mkResult {
  IP     : string;
  PTR    : list string;
  Info   : option IPInfo;
  IsIPv6 : bool;
  Error  : option error
}.

(** [var CLI struct]; [Timeout] only configures the HTTP client. *)
Record CLI := mkCLI {
  IPv4    : bool;
  IPv6    : bool;
  Timeout : Z;
  Target  : string
}.

(** [net.IP] is a byte slice. *)
Definition net_IP := list Init.Byte.byte.

(** What the code uses of [*http.Request] and [*http.Response]. *)
Record Request := mkRequest { Method : string; URL : string }.
Record Response := mkResponse { StatusCode : Z; Body : string }.

(** The library calls of the program.  A Go call returning [(v, err)] is
    a sum: [inl err] when [err != nil], [inr v] otherwise. *)
Record World := mkWorld {
  net_ParseIP     : string -> option net_IP;
  To4             : net_IP -> option net_IP;
  IP_String       : net_IP -> string;
  net_LookupHost  : string -> error + list string;
  net_LookupIP    : string -> error + list net_IP;
  net_LookupAddr  : string -> error + list string;
  http_NewRequest : string -> string -> error + Request;
  httpClient_Do   : Request -> error + Response;
  http_Get        : string -> error + Response;
  json_Decode     : string -> error + IPInfo
}.

(** ** Rendering *)

(** [strings.Join] *)
Fixpoint strings_Join (l : list string) (sep : string) : string :=
  match l with
  | [] => ""
  | [s] => s
  | s :: rest => s +:+ sep +:+ strings_Join rest sep
  end.

(** [printResult]: the lines written for one Result, in order, without
    the colour escapes; the final empty line is [fmt.Println()]. *)
Definition printResult (result : Result) : list string :=
  let recordType := if IsIPv6 result then "AAAA" else "A" in
  [recordType +:+ " Record" +:+ ": " +:+ IP result]
  ++ (if bool_decide (0 < length (PTR result))
      then ["  " +:+ "PTR Records" +:+ ": " +:+ strings_Join (PTR result) ", "]
      else [])
  ++ match Info result with
     | Some i =>
         [ "  " +:+ "City" +:+ ": " +:+ City i;
           "  " +:+ "Region" +:+ ": " +:+ Region i;
           "  " +:+ "Country" +:+ ": " +:+ Country i;
           "  " +:+ "Location" +:+ ": " +:+ Loc i;
           "  " +:+ "Organization" +:+ ": " +:+ Org i ]
     | None => []
     end
  ++ match Error result with
     | Some e => ["  " +:+ "Error" +:+ ": " +:+ e]
     | None => []
     end
  ++ [""].

(** ** The enricher: [getIPInfo] and [lookupIP] *)

(** Program counters of the two goroutines started by [lookupIP].

    The reverse-lookup goroutine has one access to the shared [result]:
    after [net.LookupAddr] returns it stores [Error] or [PTR].

    The metadata goroutine, after [getIPInfo] returns an error, tests
    [result.Error != nil], in the first branch reads [result.Error]
    again as an argument of [fmt.Errorf], and then stores the new
    error; each access is a step of its own. *)
Inductive PtrPc := PtrStart | PtrDone.
Inductive MetaPc :=
  | MetaStart
  | MetaFailed (err : error)   (* getIPInfo returned err; result.Error not yet tested *)
  | MetaCompose (err : error)  (* result.Error != nil held; fmt.Errorf not yet evaluated *)
  | MetaStore (v : error)      (* new value of result.Error computed, not yet stored *)
  | MetaDone.

Record LState := mkLState {
  result  : Result;
  ptr_pc  : PtrPc;
  meta_pc : MetaPc
}.

(** Which inner goroutine the scheduler runs next. *)
Inductive LAction := RunPtr | RunMeta.

Section Enricher.
Variable W : World.

(** [getIPInfo]; Go's two return values as a pair. *)
Definition getIPInfo (ip : string) : option IPInfo * option error :=
  match http_NewRequest W "GET" ("https://ipinfo.io/" +:+ ip +:+ "/json") with
  | inl err => (None, Some err)
  | inr req =>
      match httpClient_Do W req with
      | inl err => (None, Some err)
      | inr resp =>
          match json_Decode W (Body resp) with
          | inl err => (None, Some err)
          | inr ipInfo => (Some ipInfo, None)
          end
      end
  end.

Definition set_Error (r : Result) (e : error) : Result :=
  {| IP := IP r; PTR := PTR r; Info := Info r; IsIPv6 := IsIPv6 r;
     Error := Some e |}.
Definition set_PTR (r : Result) (names : list string) : Result :=
  {| IP := IP r; PTR := names; Info := Info r; IsIPv6 := IsIPv6 r;
     Error := Error r |}.
Definition set_Info (r : Result) (i : option IPInfo) : Result :=
  {| IP := IP r; PTR := PTR r; Info := i; IsIPv6 := IsIPv6 r;
     Error := Error r |}.

(** [%v] of an [error] value. *)
Definition fmt_v (e : option error) : string :=
  match e with
  | Some msg => msg
  | None => "<nil>"
  end.

(** [result := Result{IP: ip, IsIPv6: isIPv6}] and both goroutines
    started. *)
Definition lookup_init (ip : string) (isIPv6 : bool) : LState :=
  {| result := {| IP := ip; PTR := []; Info := None; IsIPv6 := isIPv6;
                  Error := None |};
     ptr_pc := PtrStart; meta_pc := MetaStart |}.

(** One step of one inner goroutine; [None] when that goroutine has
    already returned. *)
Definition lstep (s : LState) (a : LAction) : option LState :=
  let r := result s in
  match a with
  | RunPtr =>
      match ptr_pc s with
      | PtrStart =>
          match net_LookupAddr W (IP r) with
          | inl err =>
              Some {| result := set_Error r ("error looking up PTR records: " +:+ err);
                      ptr_pc := PtrDone; meta_pc := meta_pc s |}
          | inr names =>
              Some {| result := set_PTR r names;
                      ptr_pc := PtrDone; meta_pc := meta_pc s |}
          end
      | PtrDone => None
      end
  | RunMeta =>
      match meta_pc s with
      | MetaStart =>
          match getIPInfo (IP r) with
          | (_, Some err) =>
              Some {| result := r; ptr_pc := ptr_pc s; meta_pc := MetaFailed err |}
          | (ipInfo, None) =>
              Some {| result := set_Info r ipInfo;
                      ptr_pc := ptr_pc s; meta_pc := MetaDone |}
          end
      | MetaFailed err =>
          match Error r with
          | Some _ =>
              Some {| result := r; ptr_pc := ptr_pc s; meta_pc := MetaCompose err |}
          | None =>
              Some {| result := r; ptr_pc := ptr_pc s;
                      meta_pc := MetaStore ("error fetching IP info: " +:+ err) |}
          end
      | MetaCompose err =>
          Some {| result := r; ptr_pc := ptr_pc s;
                  meta_pc := MetaStore (fmt_v (Error r)
                                        +:+ "; error fetching IP info: " +:+ err) |}
      | MetaStore v =>
          Some {| result := set_Error r v; ptr_pc := ptr_pc s; meta_pc := MetaDone |}
      | MetaDone => None
      end
  end.

(** [wgInternal.Wait()] returns once both goroutines are done. *)
Definition joined (s : LState) : bool :=
  match ptr_pc s, meta_pc s with
  | PtrDone, MetaDone => true
  | _, _ => false
  end.

Fixpoint lrun (s : LState) (sched : list LAction) : option LState :=
  match sched with
  | [] => Some s
  | a :: rest => match lstep s a with
                 | Some s' => lrun s' rest
                 | None => None
                 end
  end.

(** A complete run of [lookupIP]'s body up to the send: the schedule is
    executed from the initial state and ends with both goroutines
    done; the value is the [result] that is sent on the channel. *)
Definition lookupIP (ip : string) (isIPv6 : bool) (sched : list LAction)
  : option Result :=
  match lrun (lookup_init ip isIPv6) sched with
  | Some s => if joined s then Some (result s) else None
  | None => None
  end.

End Enricher.

(** ** Validation, candidate addresses and the family filter *)

(** The forward-resolution calls made on the network, in order. *)
Inductive Call :=
  | CallLookupHost (host : string)
  | CallLookupIP (host : string).

(** A computation of the resolver adapter: its value and the calls it
    made. *)
Definition Net (A : Type) : Type := A * list Call.
Definition net_ret {A} (x : A) : Net A := (x, []).
Definition net_bind {A B} (m : Net A) (k : A -> Net B) : Net B :=
  let '(x, c1) := m in let '(y, c2) := k x in (y, c1 ++ c2).
Notation "'do!' x := m 'in' k" := (net_bind m (fun x => k))
  (at level 10, x name, m at level 100, k at level 200).

Section Resolver.
Variable W : World.

Definition call_LookupHost (host : string) : Net (error + list string) :=
  (net_LookupHost W host, [CallLookupHost host]).
Definition call_LookupIP (host : string) : Net (error + list net_IP) :=
  (net_LookupIP W host, [CallLookupIP host]).

(** [validateInput] *)
Definition validateInput (input : string) : Net (option error) :=
  match net_ParseIP W input with
  | Some _ => net_ret None
  | None =>
      do! r := call_LookupHost input in
      match r with
      | inl err => net_ret (Some ("invalid domain or IP address: " +:+ err))
      | inr _ => net_ret None
      end
  end.

(** [main], from [ip := net.ParseIP(CLI.Target)] to the end of the
    [if ip != nil] statement: the candidate addresses [ips], or the
    error of [net.LookupIP]. *)
Definition candidates (target : string) : Net (error + list net_IP) :=
  match net_ParseIP W target with
  | Some ip => net_ret (inr [ip])
  | None => call_LookupIP target
  end.

(** [isIPv6 := ip.To4() == nil] *)
Definition isIPv6_of (ip : net_IP) : bool :=
  match To4 W ip with
  | None => true
  | Some _ => false
  end.

(** The condition of the [if] in the launch loop. *)
Definition selected (cli : CLI) (isIPv6 : bool) : bool :=
  (IPv4 cli && negb isIPv6) || (IPv6 cli && isIPv6)
  || (negb (IPv4 cli) && negb (IPv6 cli)).

(** The launch loop [for _, ip := range ips]: the final [totalIPs] and
    the arguments [(ip.String(), isIPv6)] of the [go lookupIP(...)]
    statements executed, in order. *)
Definition launch_loop (cli : CLI) (ips : list net_IP)
  : nat * list (string * bool) :=
  fold_left
    (fun (st : nat * list (string * bool)) (ip : net_IP) =>
       let '(totalIPs, launched) := st in
       let isIPv6 := isIPv6_of ip in
       if selected cli isIPv6
       then (S totalIPs, launched ++ [(IP_String W ip, isIPv6)])
       else (totalIPs, launched))
    ips (0, []).

End Resolver.

(** ** The pipeline of [main] *)

(** Where a [lookupIP] goroutine is: before its send (its two inner
    goroutines running or joined), after the send with the deferred
    [wg.Done()] still to run, or returned. *)
Inductive Phase := Running | Sent | Exited.

(** One [go lookupIP(...)]: its local [result] with the inner program
    counters, and its phase. *)
Record Enricher := mkEnricher {
  local : LState;
  phase : Phase
}.

(** The signal goroutine: blocked on [<-sigChan], woken (its message
    printed, [cancel()] not yet called), or returned. *)
Inductive SigPc := SigWait | SigReceived | SigDone.

(** What is written to standard output, one item per print statement;
    a Result block carries the lines of [printResult]. *)
Inductive Out :=
  | OutError (msg : string)
  | OutLookupError (msg : string)
  | OutChecking
  | OutInterrupt
  | OutCancelled
  | OutClear
  | OutProgress (processed totalIPs : nat)
  | OutBlock (lines : list string)
  | OutPanic.

Record State := mkState {
  enrichers   : list Enricher;
  resultChan  : list Result;      (* buffered values, oldest first *)
  chanClosed  : bool;             (* close(resultChan) *)
  results     : list Result;
  done_closed : bool;             (* close(done) *)
  sig_pc      : SigPc;
  cancelled   : bool;             (* mainCtx.Done() is closed *)
  totalIPs    : nat;
  stdout      : list Out;
  exited      : option Z          (* the process has exited with this code *)
}.

(** [make(chan Result, 10)] *)
Definition chanCap : nat := 10.

Inductive Action :=
  | Inner (i : nat) (a : LAction)  (* enricher i: a step of an inner goroutine *)
  | Send (i : nat)                 (* enricher i: resultChan <- result *)
  | WgDone (i : nat)               (* enricher i: deferred wg.Done() *)
  | CloseChan                      (* wg.Wait() returns; close(resultChan) *)
  | Collect                        (* one iteration of range resultChan *)
  | CloseDone                      (* the range loop ends; close(done) *)
  | Signal                         (* <-sigChan and its Println *)
  | Cancel                         (* the signal goroutine calls cancel() *)
  | SelectCancelled                (* case <-mainCtx.Done() *)
  | SelectDone                     (* case <-done *)
  | SelectTick.                    (* case <-ticker.C *)

Definition with_enrichers (s : State) (es : list Enricher) : State :=
  mkState es (resultChan s) (chanClosed s) (results s) (done_closed s)
          (sig_pc s) (cancelled s) (totalIPs s) (stdout s) (exited s).
Definition with_chan (s : State) (c : list Result) (closed : bool) : State :=
  mkState (enrichers s) c closed (results s) (done_closed s)
          (sig_pc s) (cancelled s) (totalIPs s) (stdout s) (exited s).
Definition with_results (s : State) (rs : list Result) : State :=
  mkState (enrichers s) (resultChan s) (chanClosed s) rs (done_closed s)
          (sig_pc s) (cancelled s) (totalIPs s) (stdout s) (exited s).
Definition with_done (s : State) : State :=
  mkState (enrichers s) (resultChan s) (chanClosed s) (results s) true
          (sig_pc s) (cancelled s) (totalIPs s) (stdout s) (exited s).
Definition with_sig (s : State) (pc : SigPc) (c : bool) : State :=
  mkState (enrichers s) (resultChan s) (chanClosed s) (results s) (done_closed s)
          pc c (totalIPs s) (stdout s) (exited s).
Definition print (s : State) (o : list Out) : State :=
  mkState (enrichers s) (resultChan s) (chanClosed s) (results s) (done_closed s)
          (sig_pc s) (cancelled s) (totalIPs s) (stdout s ++ o) (exited s).
Definition exit (s : State) (code : Z) : State :=
  mkState (enrichers s) (resultChan s) (chanClosed s) (results s) (done_closed s)
          (sig_pc s) (cancelled s) (totalIPs s) (stdout s) (Some code).

Definition all_exited (es : list Enricher) : bool :=
  forallb (fun e => match phase e with Exited => true | _ => false end) es.

Section Pipeline.
Variable W : World.

(** The state when [main] reaches its select loop and no goroutine has
    taken a step yet: one enricher per [go lookupIP(...)], the empty
    channel, [Checking records... Please wait] printed.  The launch
    loop and that print touch nothing the goroutines read, so running
    them first loses no behaviour. *)
Definition pipeline_init (total : nat) (launched : list (string * bool)) : State :=
  {| enrichers := map (fun a => mkEnricher (lookup_init (fst a) (snd a)) Running)
                      launched;
     resultChan := []; chanClosed := false; results := [];
     done_closed := false; sig_pc := SigWait; cancelled := false;
     totalIPs := total; stdout := [OutChecking]; exited := None |}.

(** One step of the goroutine named by the action; [None] when that
    goroutine cannot move (it is blocked, has returned, or the process
    has exited). *)
Definition step (s : State) (a : Action) : option State :=
  match exited s with
  | Some _ => None
  | None =>
    match a with
    | Inner i la =>
        match enrichers s !! i with
        | Some (mkEnricher l Running) =>
            match lstep W l la with
            | Some l' => Some (with_enrichers s (<[i := mkEnricher l' Running]> (enrichers s)))
            | None => None
            end
        | _ => None
        end
    | Send i =>
        match enrichers s !! i with
        | Some (mkEnricher l Running) =>
            if joined l then
              if chanClosed s
              then (* send on a closed channel panics *)
                Some (exit (print s [OutPanic]) 2)
              else if bool_decide (length (resultChan s) < chanCap)
              then Some (with_chan
                           (with_enrichers s (<[i := mkEnricher l Sent]> (enrichers s)))
                           (resultChan s ++ [result l]) false)
              else None
            else None
        | _ => None
        end
    | WgDone i =>
        match enrichers s !! i with
        | Some (mkEnricher l Sent) =>
            Some (with_enrichers s (<[i := mkEnricher l Exited]> (enrichers s)))
        | _ => None
        end
    | CloseChan =>
        if all_exited (enrichers s) && negb (chanClosed s)
        then Some (with_chan s (resultChan s) true)
        else None
    | Collect =>
        if done_closed s then None else
        match resultChan s with
        | r :: rest =>
            Some (with_results (with_chan s rest (chanClosed s)) (results s ++ [r]))
        | [] => None
        end
    | CloseDone =>
        match resultChan s with
        | [] => if chanClosed s && negb (done_closed s)
                then Some (with_done s) else None
        | _ :: _ => None
        end
    | Signal =>
        match sig_pc s with
        | SigWait => Some (print (with_sig s SigReceived (cancelled s)) [OutInterrupt])
        | _ => None
        end
    | Cancel =>
        match sig_pc s with
        | SigReceived => Some (with_sig s SigDone true)
        | _ => None
        end
    | SelectCancelled =>
        if cancelled s then Some (exit (print s [OutCancelled]) 0) else None
    | SelectDone =>
        if done_closed s
        then Some (exit (print s (OutClear :: map (fun r => OutBlock (printResult r))
                                                  (results s))) 0)
        else None
    | SelectTick =>
        Some (print s [OutProgress (length (results s)) (totalIPs s)])
    end
  end.

Fixpoint run (s : State) (sched : list Action) : option State :=
  match sched with
  | [] => Some s
  | a :: rest => match step s a with
                 | Some s' => run s' rest
                 | None => None
                 end
  end.

End Pipeline.

(** The outcome of a run of the program. *)
Record Exit := mkExit {
  code  : Z;
  out   : list Out;
  calls : list Call
}.

Section Main.
Variable W : World.

(** [main]: the sequential prefix, then the pipeline under the given
    schedule.  [None] when the schedule is not a run of the program or
    stops before the process exits.  [ctx.Exit(1)] ends the process
    with code 1; returning from [main] ends it with code 0. *)
Definition main (cli : CLI) (sched : list Action) : option Exit :=
  let '(verr, c1) := validateInput W (Target cli) in
  match verr with
  | Some err => Some (mkExit 1 [OutError err] c1)
  | None =>
      let '(r, c2) := candidates W (Target cli) in
      match r with
      | inl err => Some (mkExit 1 [OutLookupError err] (c1 ++ c2))
      | inr ips =>
          let '(total, launched) := launch_loop W cli ips in
          match run W (pipeline_init total launched) sched with
          | Some s =>
              match exited s with
              | Some c => Some (mkExit c (stdout s) (c1 ++ c2))
              | None => None
              end
          | None => None
          end
      end
  end.

End Main.

(** ** Error messages of the enricher *)

Definition ptr_message (err : error) : error :=
  "error looking up PTR records: " +:+ err.
Definition meta_message (err : error) : error :=
  "error fetching IP info: " +:+ err.
Definition both_message (e1 e2 : error) : error :=
  ptr_message e1 +:+ "; error fetching IP info: " +:+ e2.

(** ** The sequential variant

    The variant of the program without contexts and channels runs the
    two sub-lookups of [lookupIP] one after the other in one goroutine
    and returns the Result. *)
Module Sequential.
Section Sequential.
Variable W : World.

(** [getIPInfo] of the sequential variant. *)
Definition getIPInfo (ip : string) : option IPInfo * option error :=
  match http_Get W ("https://ipinfo.io/" +:+ ip +:+ "/json") with
  | inl err => (None, Some err)
  | inr resp =>
      match json_Decode W (Body resp) with
      | inl err => (None, Some err)
      | inr ipInfo => (Some ipInfo, None)
      end
  end.

(** [lookupIP] of the sequential variant. *)
Definition lookupIP (ip : string) (isIPv6 : bool) : Result :=
  let result := {| IP := ip; PTR := []; Info := None; IsIPv6 := isIPv6;
                   Error := None |} in
  let result :=
    match net_LookupAddr W ip with
    | inl err => set_Error result ("error looking up PTR records: " +:+ err)
    | inr names => set_PTR result names
    end in
  match getIPInfo ip with
  | (_, Some err) =>
      match Error result with
      | Some prev => set_Error result (prev +:+ "; error fetching IP info: " +:+ err)
      | None => set_Error result ("error fetching IP info: " +:+ err)
      end
  | (ipInfo, None) => set_Info result ipInfo
  end.

End Sequential.
End Sequential.

(** ** Observations on states and outputs *)

(** The Address of a Result and of an enricher: the arguments
    [(ip, isIPv6)] its [lookupIP] was started with. *)
Definition raddr (r : Result) : string * bool := (IP r, IsIPv6 r).
Definition eaddr (e : Enricher) : string * bool := raddr (result (local e)).

(** The Addresses whose enricher has done its send. *)
Definition sent_addrs (es : list Enricher) : list (string * bool) :=
  omap (fun e => match phase e with
                 | Running => None
                 | Sent | Exited => Some (eaddr e)
                 end) es.

(** The per-Address blocks in an output, in order. *)
Definition blocks (o : list Out) : list (list string) :=
  omap (fun x => match x with OutBlock ls => Some ls | _ => None end) o.

(** Outputs that report a failure of the run. *)
Definition is_failure (o : Out) : bool :=
  match o with
  | OutError _ | OutLookupError _ | OutPanic => true
  | _ => false
  end.

(** The HTTP client of [W] with every response's status replaced. *)
Definition override_status (W : World) (status : Z) : World :=
  {| net_ParseIP := net_ParseIP W; To4 := To4 W; IP_String := IP_String W;
     net_LookupHost := net_LookupHost W; net_LookupIP := net_LookupIP W;
     net_LookupAddr := net_LookupAddr W; http_NewRequest := http_NewRequest W;
     httpClient_Do := fun req =>
       match httpClient_Do W req with
       | inl err => inl err
       | inr resp => inr (mkResponse status (Body resp))
       end;
     http_Get := http_Get W;
     json_Decode := json_Decode W |}.

(** ** Work left in a state

    Every step other than a ticker tick uses up some of the remaining
    work of the run; [measure] counts it. *)
Definition lmeasure (l : LState) : nat :=
  match ptr_pc l with PtrStart => 1 | PtrDone => 0 end
  + match meta_pc l with
    | MetaStart => 4 | MetaFailed _ => 3 | MetaCompose _ => 2
    | MetaStore _ => 1 | MetaDone => 0
    end.

Definition emeasure (e : Enricher) : nat :=
  match phase e with
  | Running => lmeasure (local e) + 3
  | Sent => 1
  | Exited => 0
  end.

Definition measure (s : State) : nat :=
  sum_list (map emeasure (enrichers s))
  + length (resultChan s)
  + (if chanClosed s then 0 else 1)
  + (if done_closed s then 0 else 1).

(** The schedule that runs one [lookupIP] to its send: reverse lookup
    first, then the metadata goroutine to its end (one step when the
    fetch succeeds; when it fails, three steps after a successful
    reverse lookup and four after a failed one). *)
Definition reverse_fails (W : World) (ip : string) : bool :=
  match net_LookupAddr W ip with
  | inl _ => true
  | inr _ => false
  end.
Definition fetch_fails (W : World) (ip : string) : bool :=
  match snd (getIPInfo W ip) with
  | Some _ => true
  | None => false
  end.
Definition ptr_first (ptr_failed meta_failed : bool) : list LAction :=
  RunPtr :: (if meta_failed
             then if ptr_failed
                  then [RunMeta; RunMeta; RunMeta; RunMeta]
                  else [RunMeta; RunMeta; RunMeta]
             else [RunMeta]).

(** ** A concrete world

    A resolver that knows one name and its two addresses, an HTTP client
    that answers every request with [resp], and a decoder that accepts
    only the empty JSON object. *)
Module Sample.
Import Init.Byte.

Definition google_v4 : net_IP :=
  [x00; x00; x00; x00; x00; x00; x00; x00; x00; x00; xff; xff;
   x08; x08; x08; x08].
Definition google_v6 : net_IP :=
  [x20; x01; x48; x60; x48; x60; x00; x00; x00; x00; x00; x00;
   x00; x00; x88; x88].

(** [net.IP.To4]: a 4-byte address, or the last four bytes of a
    16-byte address with the IPv4-in-IPv6 prefix. *)
Definition ip_To4 (ip : net_IP) : option net_IP :=
  if (length ip =? 4)%nat then Some ip
  else if (length ip =? 16)%nat
          && forallb (Byte.eqb x00) (take 10 ip)
          && forallb (Byte.eqb xff) (take 2 (drop 10 ip))
       then Some (drop 12 ip)
       else None.

(** [net.ParseIP] on the two literals of this world; an IPv4 literal
    parses to its 16-byte form. *)
Definition parse (s : string) : option net_IP :=
  if String.eqb s "8.8.8.8" then Some google_v4
  else if String.eqb s "2001:4860:4860::8888" then Some google_v6
  else None.

(** [net.IP.String] on the two addresses of this world. *)
Definition ip_String (ip : net_IP) : string :=
  match ip_To4 ip with
  | Some _ => "8.8.8.8"
  | None => "2001:4860:4860::8888"
  end.

Definition empty_info : IPInfo := mkIPInfo "" "" "" "" "" "" "".

Definition world (ptr : error + list string) (resp : error + Response) : World :=
  {| net_ParseIP := parse;
     To4 := ip_To4;
     IP_String := ip_String;
     net_LookupHost := fun host =>
       if String.eqb host "dns.google"
       then inr ["8.8.8.8"; "2001:4860:4860::8888"]
       else inl "no such host";
     net_LookupIP := fun host =>
       if String.eqb host "dns.google"
       then inr [google_v4; google_v6]
       else inl "no such host";
     net_LookupAddr := fun _ => ptr;
     http_NewRequest := fun method url => inr (mkRequest method url);
     httpClient_Do := fun _ => resp;
     http_Get := fun _ => resp;
     json_Decode := fun body =>
       if String.eqb body "{}" then inr empty_info
       else inl "invalid character looking for beginning of value" |}.

(** Both sub-lookups answer. *)
Definition healthy : World :=
  world (inr ["dns.google."]) (inr (mkResponse 200 "{}")).
(** No PTR record; the metadata service answers. *)
Definition no_ptr : World :=
  world (inl "no such host") (inr (mkResponse 200 "{}")).
(** No PTR record and the HTTP request times out. *)
Definition both_fail : World :=
  world (inl "no such host") (inl "context deadline exceeded").
(** The metadata service answers 404 with a JSON body. *)
Definition not_found : World :=
  world (inr ["dns.google."]) (inr (mkResponse 404 "{}")).
(** The metadata service answers 200 with a body that is not JSON. *)
Definition bad_body : World :=
  world (inr ["dns.google."]) (inr (mkResponse 200 "<html>")).
(** The HTTP request is aborted by the cancelled context. *)
Definition fetch_cancelled : World :=
  world (inr ["dns.google."]) (inl "context canceled").

(** The request cannot be built. *)
Definition request_rejected : World :=
  {| net_ParseIP := net_ParseIP healthy; To4 := To4 healthy;
     IP_String := IP_String healthy;
     net_LookupHost := net_LookupHost healthy;
     net_LookupIP := net_LookupIP healthy;
     net_LookupAddr := net_LookupAddr healthy;
     http_NewRequest := fun _ _ => inl "invalid URL escape";
     httpClient_Do := httpClient_Do healthy;
     http_Get := http_Get healthy;
     json_Decode := json_Decode healthy |}.

(** The command line [chk [-4] [-6] target] with the default timeout
    of 5s in nanoseconds. *)
Definition cli (ipv4 ipv6 : bool) (target : string) : CLI :=
  mkCLI ipv4 ipv6 5000000000 target.
End Sample.

(** ** The invariant of the pipeline

    [launched] is the list of Addresses the launch loop started an
    enricher for. *)
Record Inv (launched : list (string * bool)) (s : State) : Prop := mkInv {
  (* the enrichers are those launched, in order *)
  inv_addrs : map eaddr (enrichers s) = launched;
  (* the Results collected or in the channel are those of the enrichers
     that have sent, one each *)
  inv_perm : map raddr (results s ++ resultChan s) ≡ₚ sent_addrs (enrichers s);
  (* the channel is closed only after every enricher has returned *)
  inv_closed : chanClosed s = true -> all_exited (enrichers s) = true;
  (* done is closed only after the channel is closed and drained *)
  inv_done : done_closed s = true -> chanClosed s = true /\ resultChan s = [];
  (* no failure is reported *)
  inv_out : Forall (fun o => is_failure o = false) (stdout s);
  (* blocks are printed only by the exit through done, all at once *)
  inv_exit :
    match exited s with
    | None => blocks (stdout s) = [] /\ (OutCancelled ∉ stdout s)
    | Some c =>
        c = 0%Z
        /\ (((OutCancelled ∈ stdout s) /\ blocks (stdout s) = [])
            \/ ((OutCancelled ∉ stdout s) /\ done_closed s = true
                /\ blocks (stdout s) = map printResult (results s)))
    end
}.

(** The steps of the goroutines that do the work of the run, as opposed
    to the signal handler and the select loop of [main]. *)
Definition is_work (a : Action) : bool :=
  match a with
  | Inner _ _ | Send _ | WgDone _ | CloseChan | Collect | CloseDone => true
  | Signal | Cancel | SelectCancelled | SelectDone | SelectTick => false
  end.

(** The Addresses of [ips] that pass the family filter of [cli], as the
    arguments given to [lookupIP]. *)
Definition selection (W : World) (cli : CLI) (ips : list net_IP)
  : list (string * bool) :=
  map (fun ip => (IP_String W ip, isIPv6_of W ip))
      (List.filter (fun ip => selected cli (isIPv6_of W ip)) ips).

(** ** Further observations on runs of the pipeline *)

(** A progress line reports at most [total] completed out of [total]. *)
Definition progress_within (total : nat) (o : Out) : Prop :=
  match o with
  | OutProgress processed t => processed <= t /\ t = total
  | _ => True
  end.

(** What the signal goroutine and the ticker case print while the
    pipeline runs. *)
Definition is_status (o : Out) : bool :=
  match o with
  | OutInterrupt | OutProgress _ _ => true
  | _ => false
  end.

Definition is_progress (o : Out) : bool :=
  match o with
  | OutProgress _ _ => true
  | _ => false
  end.

Definition is_interrupt (o : Out) : bool :=
  match o with
  | OutInterrupt => true
  | _ => false
  end.

(** What the [main] goroutine itself printed: the output without the
    message of the signal goroutine. *)
Definition printed_by_main (o : list Out) : list Out :=
  List.filter (fun x => negb (is_interrupt x)) o.

(** The number of steps of working goroutines in a schedule. *)
Definition work_steps (sched : list Action) : nat :=
  length (List.filter is_work sched).

(** Facts about the channel buffer, the progress counters, the signal
    goroutine and the layout of the output that every state of a run
    satisfies. *)
Record Inv2 (launched : list (string * bool)) (s : State) : Prop := mkInv2 {
  (* the buffer never holds more than its capacity *)
  inv_cap : length (resultChan s) <= chanCap;
  inv_total : totalIPs s = length launched;
  inv_progress : Forall (progress_within (length launched)) (stdout s);
  (* the context is cancelled only by the signal goroutine *)
  inv_cancel : cancelled s = true -> sig_pc s = SigDone;
  (* the interrupt message is printed once, when the signal arrives *)
  inv_signal :
    length (List.filter is_interrupt (stdout s))
    = match sig_pc s with SigWait => 0 | _ => 1 end;
  (* the output: the first message, status lines, then the last print *)
  inv_layout :
    exists status,
      forallb is_status status = true
      /\ match exited s with
         | None => stdout s = OutChecking :: status
         | Some _ =>
             (cancelled s = true
              /\ stdout s = OutChecking :: status ++ [OutCancelled])
             \/ stdout s
                = OutChecking :: status
                  ++ OutClear :: map (fun r => OutBlock (printResult r)) (results s)
         end
}.

(** ** The sequential variant: [showHelp] and [main]

    The variant without contexts and channels parses [os.Args] itself,
    starts one goroutine per selected address that appends its Result
    to the shared slice [results], and polls [done] every 500 ms. *)
Module SequentialMain.

(** What this variant writes to standard output, one item per print
    statement. *)
Inductive SOut :=
  | SHelp (lines : list string)       (* showHelp() *)
  | SMissing (option : string)        (* Error: Missing argument for <option> option *)
  | SLookupError (msg : string)       (* Error looking up IP for domain: <err> *)
  | SChecking                         (* Checking records... Please wait *)
  | SDot                              (* . *)
  | SClear                            (* \r, 40 spaces, \r *)
  | SBlock (lines : list string).     (* printResult *)

(** [showHelp]: the lines printed, without the colour escapes. *)
Definition showHelp : list string :=
  [ "Extended DNS Check (chk) - Usage:";
    "  chk <domain/subdomain>" +:+ "              - Show A and AAAA records and IP info";
    "  chk -4 <domain/subdomain>" +:+ "           - Show only A records and IP info";
    "  chk -6 <domain/subdomain>" +:+ "           - Show only AAAA records and IP info";
    "  chk -h" +:+ " or " +:+ "chk --help" +:+ "              - Display this help" ].

(** The outcome of the argument handling at the start of [main]:
    [os.Exit] with some output, or the input and the two flags. *)
Inductive Parsed :=
  | Stop (code : Z) (out : list SOut)
  | Proceed (input : string) (ipv4Only ipv6Only : bool).

(** [os.Args[i]] for an index known to be in range. *)
Definition arg (args : list string) (i : nat) : string := nth i args "".

(** [main] up to the end of the [switch]; [args] is [os.Args]. *)
Definition arguments (args : list string) : Parsed :=
  if (length args <? 2)%nat then Stop 1 [SHelp showHelp]
  else if String.eqb (arg args 1) "-h" || String.eqb (arg args 1) "--help"
  then Stop 0 [SHelp showHelp]
  else if String.eqb (arg args 1) "-4"
  then if negb (length args =? 3)%nat
       then Stop 1 [SMissing "-4"]
       else Proceed (arg args 2) true false
  else if String.eqb (arg args 1) "-6"
  then if negb (length args =? 3)%nat
       then Stop 1 [SMissing "-6"]
       else Proceed (arg args 2) false true
  else Proceed (arg args 1) false false.

(** A goroutine running
    [results = append(results, lookupIP(...)); wg.Done()]: it loads
    the slice [results], stores the extended slice, and signals the
    wait group.  A slice is modelled by the list of its elements. *)
Inductive WorkerPc :=
  | WStart
  | WLoaded (snapshot : list Result)   (* results read, not yet assigned *)
  | WStored                            (* results assigned, wg.Done() pending *)
  | WExit.

Record Worker := mkWorker {
  waddr : string * bool;               (* the arguments of lookupIP *)
  wpc   : WorkerPc
}.

Record SState := mkSState {
  workers      : list Worker;
  sresults     : list Result;
  sdone_closed : bool;
  sstdout      : list SOut;
  sexited      : option Z
}.

Inductive SAction :=
  | Load (i : nat)       (* worker i reads results *)
  | Store (i : nat)      (* worker i assigns results *)
  | Done (i : nat)       (* worker i: deferred wg.Done() *)
  | SCloseDone           (* wg.Wait() returns; close(done) *)
  | Poll.                (* one iteration of main's for/select *)

Definition all_done (ws : list Worker) : bool :=
  forallb (fun w => match wpc w with WExit => true | _ => false end) ws.

Section Variant.
Variable W : World.

(** The goroutines started by [main]: one for a literal address,
    whatever the flags; otherwise one per resolved address passing the
    family filter, or the error of [net.LookupIP]. *)
Definition started (input : string) (ipv4Only ipv6Only : bool)
  : error + list (string * bool) :=
  match net_ParseIP W input with
  | Some ip => inr [(IP_String W ip, isIPv6_of W ip)]
  | None =>
      match net_LookupIP W input with
      | inl err => inl err
      | inr ips =>
          inr (fold_left
                 (fun (launched : list (string * bool)) (ip : net_IP) =>
                    let isIPv6 := isIPv6_of W ip in
                    if (ipv4Only && negb isIPv6) || (ipv6Only && isIPv6)
                       || (negb ipv4Only && negb ipv6Only)
                    then launched ++ [(IP_String W ip, isIPv6)]
                    else launched)
                 ips [])
      end
  end.

Definition sinit (launched : list (string * bool)) : SState :=
  {| workers := map (fun a => mkWorker a WStart) launched;
     sresults := []; sdone_closed := false;
     sstdout := [SChecking]; sexited := None |}.

Definition set_worker (s : SState) (i : nat) (w : Worker) (rs : list Result) : SState :=
  {| workers := <[i := w]> (workers s); sresults := rs;
     sdone_closed := sdone_closed s; sstdout := sstdout s; sexited := sexited s |}.

Definition sstep (s : SState) (a : SAction) : option SState :=
  match sexited s with
  | Some _ => None
  | None =>
    match a with
    | Load i =>
        match workers s !! i with
        | Some (mkWorker addr WStart) =>
            Some (set_worker s i (mkWorker addr (WLoaded (sresults s))) (sresults s))
        | _ => None
        end
    | Store i =>
        match workers s !! i with
        | Some (mkWorker addr (WLoaded snapshot)) =>
            Some (set_worker s i (mkWorker addr WStored)
                    (snapshot ++ [Sequential.lookupIP W (fst addr) (snd addr)]))
        | _ => None
        end
    | Done i =>
        match workers s !! i with
        | Some (mkWorker addr WStored) =>
            Some (set_worker s i (mkWorker addr WExit) (sresults s))
        | _ => None
        end
    | SCloseDone =>
        if all_done (workers s) && negb (sdone_closed s)
        then Some {| workers := workers s; sresults := sresults s;
                     sdone_closed := true; sstdout := sstdout s;
                     sexited := sexited s |}
        else None
    | Poll =>
        if sdone_closed s
        then Some {| workers := workers s; sresults := sresults s;
                     sdone_closed := true;
                     sstdout := sstdout s
                                ++ SClear :: map (fun r => SBlock (printResult r))
                                                 (sresults s);
                     sexited := Some 0%Z |}
        else Some {| workers := workers s; sresults := sresults s;
                     sdone_closed := false; sstdout := sstdout s ++ [SDot];
                     sexited := None |}
    end
  end.

Fixpoint srun (s : SState) (sched : list SAction) : option SState :=
  match sched with
  | [] => Some s
  | a :: rest => match sstep s a with
                 | Some s' => srun s' rest
                 | None => None
                 end
  end.

(** [main]: exit code and output, for [os.Args] and a schedule of the
    goroutines; [None] when the schedule is not a run or stops before
    the process exits. *)
Definition main (args : list string) (sched : list SAction) : option (Z * list SOut) :=
  match arguments args with
  | Stop code out => Some (code, out)
  | Proceed input ipv4Only ipv6Only =>
      match started input ipv4Only ipv6Only with
      | inl err => Some (1%Z, [SLookupError err])
      | inr launched =>
          match srun (sinit launched) sched with
          | Some s =>
              match sexited s with
              | Some c => Some (c, sstdout s)
              | None => None
              end
          | None => None
          end
      end
  end.

End Variant.

(** The blocks in an output, in order. *)
Definition sblocks (o : list SOut) : list (list string) :=
  omap (fun x => match x with SBlock ls => Some ls | _ => None end) o.

(** The schedule that runs workers [k], ..., [k + n - 1] to their end
    one after the other. *)
Definition one_by_one (k n : nat) : list SAction :=
  flat_map (fun i => [Load i; Store i; Done i]) (seq k n).

(** The states of a run with a single worker for [a]: [results] is
    empty until the worker has stored, and holds its Result after. *)
Definition single (W : World) (a : string * bool) (s : SState) : Prop :=
  (exists pc,
      workers s = [mkWorker a pc]
      /\ match pc with
         | WStart => sresults s = []
         | WLoaded snapshot => snapshot = [] /\ sresults s = []
         | WStored | WExit => sresults s = [Sequential.lookupIP W (fst a) (snd a)]
         end
      /\ (sdone_closed s = true -> pc = WExit))
  /\ match sexited s with
     | None => sstdout s <> [] /\ sblocks (sstdout s) = []
     | Some c =>
         c = 0%Z
         /\ sblocks (sstdout s)
            = [printResult (Sequential.lookupIP W (fst a) (snd a))]
     end.

End SequentialMain.
(** ** The enricher: every complete run *)

Section EnricherRuns.
Variable W : World.

Ltac lookup_simpl H := cbn -[getIPInfo String.append] in H.

(** Case analysis on the next action of a schedule under [lrun]. *)
Ltac lstep_case H E1 E2 :=
  first
    [ discriminate H
    | injection H as <-
    | progress (rewrite ?E1, ?E2 in H; lookup_simpl H)
    | match type of H with
      | context [lrun _ _ ?l] => is_var l; destruct l as [|[|] ?]; lookup_simpl H
      end ].

(** The [result] sent by [lookupIP], for each pair of outcomes of
    [net.LookupAddr] and [getIPInfo] and every schedule of the two
    inner goroutines. *)
Lemma lookupIP_cases (ip : string) (isIPv6 : bool) (sched : list LAction) (r : Result) :
  lookupIP W ip isIPv6 sched = Some r ->
  match net_LookupAddr W ip, getIPInfo W ip with
  | inr names, (i, None) => r = mkResult ip names i isIPv6 None
  | inl e1, (i, None) => r = mkResult ip [] i isIPv6 (Some (ptr_message e1))
  | inr names, (_, Some e2) =>
      r = mkResult ip names None isIPv6 (Some (meta_message e2))
  | inl e1, (_, Some e2) =>
      r = mkResult ip [] None isIPv6 (Some (both_message e1 e2))
      \/ r = mkResult ip [] None isIPv6 (Some (ptr_message e1))
      \/ r = mkResult ip [] None isIPv6 (Some (meta_message e2))
  end.
Proof.
  unfold lookupIP, lookup_init. intros H.
  destruct (net_LookupAddr W ip) as [e1|names] eqn:E1;
    destruct (getIPInfo W ip) as [i [e2|]] eqn:E2;
    repeat lstep_case H E1 E2; auto.
Qed.

Ltac lookup_eval E1 E2 :=
  repeat (progress (rewrite ?E1, ?E2; cbn -[getIPInfo String.append])).

(** The schedule [ptr_first] is a complete run whatever the two
    sub-lookups return, and its Result is the one the sequential
    variant computes. *)
Lemma lookupIP_ptr_first (ip : string) (isIPv6 : bool) :
  Sequential.getIPInfo W ip = getIPInfo W ip ->
  lookupIP W ip isIPv6 (ptr_first (reverse_fails W ip) (fetch_fails W ip))
  = Some (Sequential.lookupIP W ip isIPv6).
Proof.
  intros Hseq.
  unfold lookupIP, Sequential.lookupIP, lookup_init, ptr_first,
  reverse_fails, fetch_fails.
  rewrite Hseq.
  destruct (net_LookupAddr W ip) as [e1|names] eqn:E1;
    destruct (getIPInfo W ip) as [i [e2|]] eqn:E2;
    lookup_eval E1 E2; reflexivity.
Qed.

(** Some schedule completes: [lookupIP] always reaches its send. *)
Lemma lookupIP_completes (ip : string) (isIPv6 : bool) :
  exists sched r, lookupIP W ip isIPv6 sched = Some r.
Proof.
  exists (ptr_first (reverse_fails W ip) (fetch_fails W ip)).
  unfold lookupIP, lookup_init, ptr_first, reverse_fails, fetch_fails.
  destruct (net_LookupAddr W ip) as [e1|names] eqn:E1;
    destruct (getIPInfo W ip) as [i [e2|]] eqn:E2;
    lookup_eval E1 E2; eauto.
Qed.

(** Unless both sub-lookups fail, the Result does not depend on the
    schedule. *)
Lemma lookupIP_deterministic_unless_both_fail
      (ip : string) (isIPv6 : bool) (s1 s2 : list LAction) (r1 r2 : Result) :
  (forall e1 e2 i, ~ (net_LookupAddr W ip = inl e1 /\ getIPInfo W ip = (i, Some e2))) ->
  lookupIP W ip isIPv6 s1 = Some r1 ->
  lookupIP W ip isIPv6 s2 = Some r2 ->
  r1 = r2.
Proof.
  intros Hnot H1 H2.
  apply lookupIP_cases in H1. apply lookupIP_cases in H2.
  destruct (net_LookupAddr W ip) as [e1|names] eqn:E1;
    destruct (getIPInfo W ip) as [i [e2|]] eqn:E2; try congruence.
  exfalso. apply (Hnot e1 e2 i). auto.
Qed.

(** [getIPInfo] returns an error exactly when it returns no record. *)
Lemma getIPInfo_shape (ip : string) :
  (exists e, getIPInfo W ip = (None, Some e))
  \/ (exists i, getIPInfo W ip = (Some i, None)).
Proof.
  unfold getIPInfo.
  destruct (http_NewRequest W _ _) as [e|req]; [eauto|].
  destruct (httpClient_Do W req) as [e|resp]; [eauto|].
  destruct (json_Decode W (Body resp)) as [e|i]; eauto.
Qed.

End EnricherRuns.

(** ** Lists of enrichers *)

Section ListFacts.
Context {A B : Type}.

Lemma omap_insert_same (f : A -> option B) (l : list A) (i : nat) (x y : A) :
  l !! i = Some x -> f y = f x -> omap f (<[i:=y]> l) = omap f l.
Proof.
  revert i. induction l as [|a l IH]; intros [|i] Hl Hf; simplify_eq/=.
  - by rewrite Hf.
  - by rewrite (IH i).
Qed.

Lemma omap_insert_new (f : A -> option B) (l : list A) (i : nat) (x y : A) (b : B) :
  l !! i = Some x -> f x = None -> f y = Some b ->
  omap f (<[i:=y]> l) ≡ₚ b :: omap f l.
Proof.
  revert i. induction l as [|a l IH]; intros [|i] Hl Hx Hy; simplify_eq/=.
  - by rewrite Hx, Hy.
  - specialize (IH i Hl Hx Hy). destruct (f a) as [c|]; [|done].
    rewrite IH. apply Permutation_swap.
Qed.

Lemma map_insert_same (f : A -> B) (l : list A) (i : nat) (x y : A) :
  l !! i = Some x -> f y = f x -> map f (<[i:=y]> l) = map f l.
Proof.
  revert i. induction l as [|a l IH]; intros [|i] Hl Hf; simplify_eq/=.
  - by rewrite Hf.
  - by rewrite (IH i).
Qed.

Lemma sum_list_insert (f : A -> nat) (l : list A) (i : nat) (x y : A) :
  l !! i = Some x ->
  sum_list (map f (<[i:=y]> l)) + f x = sum_list (map f l) + f y.
Proof.
  revert i. induction l as [|a l IH]; intros [|i] Hl; simplify_eq/=.
  - lia.
  - specialize (IH i Hl). lia.
Qed.
End ListFacts.

Lemma all_exited_lookup (es : list Enricher) (i : nat) (e : Enricher) :
  all_exited es = true -> es !! i = Some e -> phase e = Exited.
Proof.
  unfold all_exited. rewrite forallb_forall. intros Hall Hi.
  specialize (Hall e). rewrite <- list_elem_of_In in Hall.
  assert (He : e ∈ es) by (apply list_elem_of_lookup; eauto).
  specialize (Hall He). by destruct (phase e).
Qed.

Lemma all_exited_sent (es : list Enricher) :
  all_exited es = true -> sent_addrs es = map eaddr es.
Proof.
  unfold sent_addrs. induction es as [|e es IH]; [done|].
  cbn. intros [He Hes]%andb_prop. destruct (phase e); try done.
  cbn. by rewrite IH.
Qed.

Lemma not_all_exited (es : list Enricher) :
  all_exited es = false ->
  exists i e, es !! i = Some e /\ phase e <> Exited.
Proof.
  induction es as [|e es IH]; [done|].
  cbn. intros H. destruct (phase e) eqn:He.
  - exists 0, e. by rewrite He.
  - exists 0, e. by rewrite He.
  - destruct (IH H) as (i & e' & Hi & Hp). by exists (S i), e'.
Qed.

Lemma sent_addrs_sub (es : list Enricher) : sent_addrs es ⊆+ map eaddr es.
Proof.
  unfold sent_addrs. induction es as [|e es IH]; [done|].
  cbn. destruct (phase e); cbn.
  - by apply submseteq_cons.
  - by apply submseteq_skip.
  - by apply submseteq_skip.
Qed.

Lemma blocks_app (o1 o2 : list Out) : blocks (o1 ++ o2) = blocks o1 ++ blocks o2.
Proof. apply omap_app. Qed.

Lemma blocks_of_results (rs : list Result) :
  blocks (map (fun r => OutBlock (printResult r)) rs) = map printResult rs.
Proof. induction rs as [|r rs IH]; [done|]. cbn. by rewrite <- IH. Qed.

(** ** Properties of the enricher *)

(** C8. For an Address whose reverse-name lookup fails while the
    metadata fetch succeeds, every complete run of the enricher, under
    every schedule of its two goroutines, sends a Result with the
    Metadata Record populated, an empty PTR Set, and the error
    [error looking up PTR records: <err>], which mentions the
    reverse-lookup failure only; and such a run exists. *)
Theorem lookupIP_reverse_fails_metadata_ok
        (W : World) (ip : string) (isIPv6 : bool) (e1 : error) (info : IPInfo) :
  net_LookupAddr W ip = inl e1 ->
  getIPInfo W ip = (Some info, None) ->
  (forall sched r,
      lookupIP W ip isIPv6 sched = Some r ->
      Info r = Some info /\ PTR r = []
      /\ Error r = Some ("error looking up PTR records: " +:+ e1)
      /\ raddr r = (ip, isIPv6))
  /\ (exists sched r, lookupIP W ip isIPv6 sched = Some r).
Proof.
  intros E1 E2. split.
  - intros sched r H. apply lookupIP_cases in H.
    rewrite E1, E2 in H. subst r. auto.
  - apply lookupIP_completes.
Qed.

Lemma lookupIP_reverse_fails_metadata_ok_witness :
  net_LookupAddr Sample.no_ptr "8.8.8.8" = inl "no such host"
  /\ getIPInfo Sample.no_ptr "8.8.8.8" = (Some Sample.empty_info, None)
  /\ (forall sched r,
        lookupIP Sample.no_ptr "8.8.8.8" false sched = Some r ->
        Info r = Some Sample.empty_info /\ PTR r = []
        /\ Error r = Some ("error looking up PTR records: " +:+ "no such host")
        /\ raddr r = ("8.8.8.8", false))
  /\ (exists sched r, lookupIP Sample.no_ptr "8.8.8.8" false sched = Some r).
Proof.
  split; [reflexivity|]. split; [reflexivity|].
  apply (lookupIP_reverse_fails_metadata_ok Sample.no_ptr "8.8.8.8" false
           "no such host" Sample.empty_info); reflexivity.
Defined.


(** C2 (what the code does when both sub-lookups fail).  The error of
    the Result depends on the order of the accesses to [result.Error]:
    when the reverse-lookup goroutine stores first the composite
    message is built, reverse-lookup error first; when the metadata
    goroutine stores first its message is overwritten and only the
    reverse-lookup error is left; when the metadata goroutine reads
    [result.Error] before the reverse-lookup goroutine stores and stores
    after it, only the metadata error is left. *)
Theorem lookupIP_both_fail_by_schedule
        (W : World) (ip : string) (isIPv6 : bool) (e1 e2 : error) (i : option IPInfo) :
  net_LookupAddr W ip = inl e1 ->
  getIPInfo W ip = (i, Some e2) ->
  lookupIP W ip isIPv6 [RunPtr; RunMeta; RunMeta; RunMeta; RunMeta]
  = Some (mkResult ip [] None isIPv6
            (Some ("error looking up PTR records: " +:+ e1
                   +:+ "; error fetching IP info: " +:+ e2)))
  /\ lookupIP W ip isIPv6 [RunMeta; RunMeta; RunMeta; RunPtr]
     = Some (mkResult ip [] None isIPv6
               (Some ("error looking up PTR records: " +:+ e1)))
  /\ lookupIP W ip isIPv6 [RunMeta; RunMeta; RunPtr; RunMeta]
     = Some (mkResult ip [] None isIPv6
               (Some ("error fetching IP info: " +:+ e2))).
Proof.
  intros E1 E2. unfold lookupIP, lookup_init.
  repeat split;
    repeat (progress (rewrite ?E1, ?E2; cbn -[getIPInfo String.append]));
    reflexivity.
Qed.

Lemma lookupIP_both_fail_by_schedule_witness :
  net_LookupAddr Sample.both_fail "8.8.8.8" = inl "no such host"
  /\ getIPInfo Sample.both_fail "8.8.8.8" = (None, Some "context deadline exceeded")
  /\ lookupIP Sample.both_fail "8.8.8.8" false [RunMeta; RunMeta; RunMeta; RunPtr]
     = Some (mkResult "8.8.8.8" [] None false
               (Some ("error looking up PTR records: " +:+ "no such host"))).
Proof.
  split; [reflexivity|]. split; [reflexivity|].
  apply (lookupIP_both_fail_by_schedule Sample.both_fail "8.8.8.8" false
           "no such host" "context deadline exceeded" None); reflexivity.
Defined.

(** C9 (what the code does).  With both sub-lookups failing, two
    complete runs of the enricher on the same Address and the same
    outcomes send Results with different errors. *)
Theorem lookupIP_depends_on_schedule
        (W : World) (ip : string) (isIPv6 : bool) (e1 e2 : error) (i : option IPInfo) :
  net_LookupAddr W ip = inl e1 ->
  getIPInfo W ip = (i, Some e2) ->
  exists s1 s2 r1 r2,
    lookupIP W ip isIPv6 s1 = Some r1
    /\ lookupIP W ip isIPv6 s2 = Some r2
    /\ Error r1 <> Error r2.
Proof.
  intros E1 E2.
  exists [RunMeta; RunMeta; RunMeta; RunPtr], [RunMeta; RunMeta; RunPtr; RunMeta].
  do 2 eexists. unfold lookupIP, lookup_init.
  repeat split;
    repeat (progress (rewrite ?E1, ?E2; cbn -[getIPInfo String.append]));
    try reflexivity.
  cbn. discriminate.
Qed.

Lemma lookupIP_depends_on_schedule_witness :
  net_LookupAddr Sample.both_fail "8.8.8.8" = inl "no such host"
  /\ getIPInfo Sample.both_fail "8.8.8.8" = (None, Some "context deadline exceeded")
  /\ exists s1 s2 r1 r2,
      lookupIP Sample.both_fail "8.8.8.8" false s1 = Some r1
      /\ lookupIP Sample.both_fail "8.8.8.8" false s2 = Some r2
      /\ Error r1 <> Error r2.
Proof.
  split; [reflexivity|]. split; [reflexivity|].
  apply (lookupIP_depends_on_schedule Sample.both_fail "8.8.8.8" false
           "no such host" "context deadline exceeded" None); reflexivity.
Defined.

(** ** Properties of the metadata fetch *)

(** C3 as stated fails: a response with status 404 and a body that
    decodes makes [getIPInfo] return a record and no error, and the
    Result carries that record and no error. *)
Lemma getIPInfo_accepts_status_404 :
  httpClient_Do Sample.not_found (mkRequest "GET" "https://ipinfo.io/8.8.8.8/json")
  = inr (mkResponse 404 "{}")
  /\ ~ (200 <= 404 < 300)%Z
  /\ getIPInfo Sample.not_found "8.8.8.8" = (Some Sample.empty_info, None)
  /\ lookupIP Sample.not_found "8.8.8.8" false [RunPtr; RunMeta]
     = Some (mkResult "8.8.8.8" ["dns.google."] (Some Sample.empty_info) false None).
Proof.
  repeat split; try reflexivity. lia.
Qed.

(** C3, amended.  [getIPInfo] never looks at the status of the
    response: replacing the status by any other leaves its result
    unchanged.  It returns an error, and no record, in exactly three
    cases: the request cannot be built, the HTTP exchange fails, or the
    body of the response fails to decode; the error returned is the
    one of that step.  Whenever it returns an error, under every
    schedule the Result has no Metadata Record, and its error is the
    metadata error when the reverse lookup succeeded.  A body that
    decodes gives the record and no error, whatever the status. *)
Theorem getIPInfo_errors (W : World) (ip : string) :
  (forall status, getIPInfo (override_status W status) ip = getIPInfo W ip)
  /\ (forall err,
        http_NewRequest W "GET" ("https://ipinfo.io/" +:+ ip +:+ "/json") = inl err ->
        getIPInfo W ip = (None, Some err))
  /\ (forall req err,
        http_NewRequest W "GET" ("https://ipinfo.io/" +:+ ip +:+ "/json") = inr req ->
        httpClient_Do W req = inl err ->
        getIPInfo W ip = (None, Some err))
  /\ (forall req resp err,
        http_NewRequest W "GET" ("https://ipinfo.io/" +:+ ip +:+ "/json") = inr req ->
        httpClient_Do W req = inr resp ->
        json_Decode W (Body resp) = inl err ->
        getIPInfo W ip = (None, Some err))
  /\ (forall req resp info,
        http_NewRequest W "GET" ("https://ipinfo.io/" +:+ ip +:+ "/json") = inr req ->
        httpClient_Do W req = inr resp ->
        json_Decode W (Body resp) = inr info ->
        getIPInfo W ip = (Some info, None))
  /\ (forall i err,
        getIPInfo W ip = (i, Some err) ->
        i = None
        /\ (http_NewRequest W "GET" ("https://ipinfo.io/" +:+ ip +:+ "/json") = inl err
            \/ (exists req,
                   http_NewRequest W "GET" ("https://ipinfo.io/" +:+ ip +:+ "/json")
                   = inr req
                   /\ httpClient_Do W req = inl err)
            \/ (exists req resp,
                   http_NewRequest W "GET" ("https://ipinfo.io/" +:+ ip +:+ "/json")
                   = inr req
                   /\ httpClient_Do W req = inr resp
                   /\ json_Decode W (Body resp) = inl err))
        /\ forall isIPv6 sched r,
             lookupIP W ip isIPv6 sched = Some r ->
             Info r = None
             /\ forall names, net_LookupAddr W ip = inr names ->
                  Error r = Some ("error fetching IP info: " +:+ err)).
Proof.
  split; [|split; [|split; [|split; [|split]]]].
  - intros status. unfold getIPInfo. cbn.
    destruct (http_NewRequest W _ _) as [e|req]; [done|].
    by destruct (httpClient_Do W req).
  - intros err Hreq. unfold getIPInfo. by rewrite Hreq.
  - intros req err Hreq Hdo. unfold getIPInfo. by rewrite Hreq, Hdo.
  - intros req resp err Hreq Hdo Hdec. unfold getIPInfo.
    by rewrite Hreq, Hdo, Hdec.
  - intros req resp info Hreq Hdo Hdec. unfold getIPInfo.
    by rewrite Hreq, Hdo, Hdec.
  - intros i err Hget. split; [|split].
    + unfold getIPInfo in Hget.
      destruct (http_NewRequest W _ _) as [e|req]; [congruence|].
      destruct (httpClient_Do W req) as [e|resp]; [congruence|].
      destruct (json_Decode W (Body resp)); congruence.
    + unfold getIPInfo in Hget.
      destruct (http_NewRequest W _ _) as [e|req] eqn:Hreq.
      { left. congruence. }
      destruct (httpClient_Do W req) as [e|resp] eqn:Hdo.
      { right. left. exists req. split; [done|]. congruence. }
      destruct (json_Decode W (Body resp)) as [e|info] eqn:Hdec; [|discriminate].
      right. right. exists req, resp. repeat split; [done..|]. congruence.
    + intros isIPv6 sched r Hrun. apply lookupIP_cases in Hrun.
      rewrite Hget in Hrun.
      destruct (net_LookupAddr W ip) as [e1|names] eqn:E1.
      * split; [|discriminate]. destruct Hrun as [->|[->| ->]]; reflexivity.
      * subst r. split; [reflexivity|]. intros names' _. reflexivity.
Qed.

Lemma getIPInfo_errors_witness :
  (http_NewRequest Sample.request_rejected "GET"
                   ("https://ipinfo.io/" +:+ "8.8.8.8" +:+ "/json")
   = inl "invalid URL escape"
   /\ getIPInfo Sample.request_rejected "8.8.8.8"
      = (None, Some "invalid URL escape"))
  /\ (httpClient_Do Sample.both_fail (mkRequest "GET" "https://ipinfo.io/8.8.8.8/json")
      = inl "context deadline exceeded"
      /\ getIPInfo Sample.both_fail "8.8.8.8"
         = (None, Some "context deadline exceeded"))
  /\ (json_Decode Sample.bad_body "<html>"
      = inl "invalid character looking for beginning of value"
      /\ getIPInfo Sample.bad_body "8.8.8.8"
         = (None, Some "invalid character looking for beginning of value")).
Proof.
  split; [|split].
  - split; [reflexivity|].
    apply (proj1 (proj2 (getIPInfo_errors Sample.request_rejected "8.8.8.8"))).
    reflexivity.
  - split; [reflexivity|].
    apply (proj1 (proj2 (proj2 (getIPInfo_errors Sample.both_fail "8.8.8.8")))
             (mkRequest "GET" "https://ipinfo.io/8.8.8.8/json")); reflexivity.
  - split; [reflexivity|].
    apply (proj1 (proj2 (proj2 (proj2 (getIPInfo_errors Sample.bad_body "8.8.8.8"))))
             (mkRequest "GET" "https://ipinfo.io/8.8.8.8/json")
             (mkResponse 200 "<html>")); reflexivity.
Defined.

(** ** The pipeline: invariant *)

#[local] Arguments printResult : simpl never.
#[local] Arguments String.append : simpl never.
#[local] Arguments blocks : simpl never.
#[local] Arguments sent_addrs : simpl never.
#[local] Arguments all_exited : simpl never.
#[local] Arguments emeasure : simpl never.
#[local] Arguments lmeasure : simpl never.

Section PipelineInvariant.
Variable W : World.

Lemma lstep_raddr (l l' : LState) (a : LAction) :
  lstep W l a = Some l' -> raddr (result l') = raddr (result l).
Proof.
  unfold lstep. intros H.
  destruct a; repeat case_match; simplify_eq; reflexivity.
Qed.

Lemma lstep_measure (l l' : LState) (a : LAction) :
  lstep W l a = Some l' -> lmeasure l' < lmeasure l.
Proof.
  unfold lstep, lmeasure. intros H.
  destruct a; repeat case_match; simplify_eq; cbn in *;
    repeat case_match; simplify_eq; lia.
Qed.

Lemma init_inv (total : nat) (launched : list (string * bool)) :
  Inv launched (pipeline_init total launched).
Proof.
  split; cbn; try done.
  - rewrite map_map. cbn. induction launched as [|[ip v6] l IH]; [done|].
    cbn. by rewrite IH.
  - induction launched as [|a l IH]; [done|]. by cbn.
  - repeat constructor.
  - split; [done|]. by intros [=]%list_elem_of_singleton.
Qed.

Lemma not_cancelled_app (o : list Out) (x : Out) :
  OutCancelled ∉ o -> x <> OutCancelled -> OutCancelled ∉ o ++ [x].
Proof.
  intros Ho Hx [H|H%list_elem_of_singleton]%elem_of_app; [done|].
  by apply Hx.
Qed.

Lemma not_cancelled_done (o : list Out) (rs : list Result) :
  OutCancelled ∉ o ->
  OutCancelled ∉ o ++ OutClear :: map (fun r => OutBlock (printResult r)) rs.
Proof.
  intros Ho [H|H]%elem_of_app; [done|].
  apply elem_of_cons in H as [H|H]; [done|].
  by apply list_elem_of_fmap in H as (r & Hr & _).
Qed.

Lemma failure_free_app (o o' : list Out) :
  Forall (fun x => is_failure x = false) o ->
  forallb (fun x => negb (is_failure x)) o' = true ->
  Forall (fun x => is_failure x = false) (o ++ o').
Proof.
  intros Ho Ho'. apply Forall_app. split; [done|].
  apply Forall_forall. intros x Hx%list_elem_of_In.
  rewrite forallb_forall in Ho'. specialize (Ho' x Hx).
  by destruct (is_failure x).
Qed.

Lemma step_inv (launched : list (string * bool)) (s s' : State) (a : Action) :
  Inv launched s -> step W s a = Some s' -> Inv launched s'.
Proof.
  intros [Haddrs Hperm Hclosed Hdone Hout Hexit] Hstep.
  unfold step in Hstep.
  destruct (exited s) eqn:Hex; [discriminate|].
  destruct Hexit as [Hblocks Hnc].
  destruct a as [i la|i|i| | | | | | | | ].
  - (* Inner *)
    destruct (enrichers s !! i) as [[l ph]|] eqn:Hi; [|done].
    destruct ph; try done.
    destruct (lstep W l la) as [l'|] eqn:Hl; [|done].
    injection Hstep as <-.
    split; cbn; rewrite ?Hex; auto.
    + rewrite (map_insert_same _ _ _ _ _ Hi); [done|].
      apply (lstep_raddr _ _ _ Hl).
    + unfold sent_addrs. by rewrite (omap_insert_same _ _ _ _ _ Hi).
    + intros Hc. by specialize (all_exited_lookup _ _ _ (Hclosed Hc) Hi).
  - (* Send *)
    destruct (enrichers s !! i) as [[l ph]|] eqn:Hi; [|done].
    destruct ph; try done.
    destruct (joined l); [|done].
    destruct (chanClosed s) eqn:Hc.
    { by specialize (all_exited_lookup _ _ _ (Hclosed eq_refl) Hi). }
    case_bool_decide; [|done].
    injection Hstep as <-.
    split; cbn; rewrite ?Hex; auto.
    + by rewrite (map_insert_same _ _ _ _ _ Hi).
    + unfold sent_addrs.
      rewrite (omap_insert_new _ _ _ _ _ (eaddr (mkEnricher l Sent)) Hi) by done.
      rewrite !map_app. cbn. rewrite app_assoc, <- map_app, Hperm.
      by rewrite <- Permutation_cons_append.
    + done.
    + intros Hd. destruct (Hdone Hd) as [? _]. congruence.
  - (* WgDone *)
    destruct (enrichers s !! i) as [[l ph]|] eqn:Hi; [|done].
    destruct ph; try done.
    injection Hstep as <-.
    split; cbn; rewrite ?Hex; auto.
    + by rewrite (map_insert_same _ _ _ _ _ Hi).
    + unfold sent_addrs. by rewrite (omap_insert_same _ _ _ _ _ Hi).
    + intros Hc. by specialize (all_exited_lookup _ _ _ (Hclosed Hc) Hi).
  - (* CloseChan *)
    destruct (all_exited (enrichers s)) eqn:Hall; [|done].
    destruct (chanClosed s) eqn:Hc; [done|].
    injection Hstep as <-.
    split; cbn; rewrite ?Hex; auto.
    intros Hd. destruct (Hdone Hd) as [? _]. congruence.
  - (* Collect *)
    destruct (done_closed s) eqn:Hd; [done|].
    destruct (resultChan s) as [|r rest] eqn:Hch; [done|].
    injection Hstep as <-.
    split; cbn; rewrite ?Hex, ?Hd; auto.
    + by rewrite <- app_assoc.
    + done.
  - (* CloseDone *)
    destruct (resultChan s) as [|r rest] eqn:Hch; [|done].
    destruct (chanClosed s) eqn:Hc; [|done].
    destruct (done_closed s) eqn:Hd; [done|].
    injection Hstep as <-.
    split; cbn; rewrite ?Hex, ?Hch, ?Hc; auto.
  - (* Signal *)
    destruct (sig_pc s); try done.
    injection Hstep as <-.
    split; cbn; rewrite ?Hex; auto.
    + by apply failure_free_app.
    + rewrite blocks_app, Hblocks. split; [done|].
      by apply not_cancelled_app.
  - (* Cancel *)
    destruct (sig_pc s); try done.
    injection Hstep as <-.
    split; cbn; rewrite ?Hex; auto.
  - (* SelectCancelled *)
    destruct (cancelled s); [|done].
    injection Hstep as <-.
    split; cbn; auto.
    + by apply failure_free_app.
    + split; [done|]. left. rewrite blocks_app, Hblocks. split; [|done].
      apply elem_of_app. right. by apply list_elem_of_singleton.
  - (* SelectDone *)
    destruct (done_closed s) eqn:Hd; [|done].
    injection Hstep as <-.
    split; cbn; rewrite ?Hd; auto.
    + apply failure_free_app; [done|]. cbn.
      generalize (results s) as rs. clear.
      induction rs as [|r rs IH]; done.
    + split; [done|]. right. split; [|split; [done|]].
      * by apply not_cancelled_done.
      * rewrite blocks_app, Hblocks. cbn. apply blocks_of_results.
  - (* SelectTick *)
    injection Hstep as <-.
    split; cbn; rewrite ?Hex; auto.
    + by apply failure_free_app.
    + rewrite blocks_app, Hblocks. split; [done|].
      by apply not_cancelled_app.
Qed.

Lemma run_inv (launched : list (string * bool)) (sched : list Action) (s s' : State) :
  Inv launched s -> run W s sched = Some s' -> Inv launched s'.
Proof.
  revert s. induction sched as [|a sched IH]; intros s Hinv Hrun; cbn in Hrun.
  - by injection Hrun as <-.
  - destruct (step W s a) as [s1|] eqn:Hs; [|done].
    eapply IH; [|done]. by eapply step_inv.
Qed.

(** *** Progress *)

Lemma step_measure (s s' : State) (a : Action) :
  step W s a = Some s' -> is_work a = true -> exited s' = None ->
  measure s' < measure s.
Proof.
  intros Hstep Hwork Hex'. unfold step in Hstep.
  destruct (exited s) eqn:Hex; [discriminate|].
  destruct a as [i la|i|i| | | | | | | | ]; try discriminate Hwork.
  - destruct (enrichers s !! i) as [[l ph]|] eqn:Hi; [|done].
    destruct ph; try done.
    destruct (lstep W l la) as [l'|] eqn:Hl; [|done].
    injection Hstep as <-. unfold measure. cbn.
    pose proof (sum_list_insert emeasure _ _ _ (mkEnricher l' Running) Hi) as Hsum.
    apply lstep_measure in Hl.
    change (emeasure (mkEnricher l' Running)) with (lmeasure l' + 3) in Hsum.
    change (emeasure (mkEnricher l Running)) with (lmeasure l + 3) in Hsum.
    lia.
  - destruct (enrichers s !! i) as [[l ph]|] eqn:Hi; [|done].
    destruct ph; try done.
    destruct (joined l); [|done].
    destruct (chanClosed s) eqn:Hc; [by injection Hstep as <-|].
    case_bool_decide; [|done].
    injection Hstep as <-. unfold measure. cbn. rewrite Hc, length_app. cbn.
    pose proof (sum_list_insert emeasure _ _ _ (mkEnricher l Sent) Hi) as Hsum.
    change (emeasure (mkEnricher l Sent)) with 1 in Hsum.
    change (emeasure (mkEnricher l Running)) with (lmeasure l + 3) in Hsum.
    lia.
  - destruct (enrichers s !! i) as [[l ph]|] eqn:Hi; [|done].
    destruct ph; try done.
    injection Hstep as <-. unfold measure. cbn.
    pose proof (sum_list_insert emeasure _ _ _ (mkEnricher l Exited) Hi) as Hsum.
    change (emeasure (mkEnricher l Exited)) with 0 in Hsum.
    change (emeasure (mkEnricher l Sent)) with 1 in Hsum.
    lia.
  - destruct (all_exited (enrichers s)); [|done].
    destruct (chanClosed s) eqn:Hc; [done|].
    injection Hstep as <-. unfold measure. cbn. rewrite Hc. lia.
  - destruct (done_closed s) eqn:Hd; [done|].
    destruct (resultChan s) as [|r rest] eqn:Hch; [done|].
    injection Hstep as <-. unfold measure. cbn. rewrite Hch, Hd. cbn. lia.
  - destruct (resultChan s) as [|r rest] eqn:Hch; [|done].
    destruct (chanClosed s) eqn:Hc; [|done].
    destruct (done_closed s) eqn:Hd; [done|].
    injection Hstep as <-. unfold measure. cbn. rewrite Hch, Hc, Hd. cbn. lia.
Qed.

Lemma lstep_enabled (l : LState) :
  joined l = false -> exists a l', lstep W l a = Some l'.
Proof.
  unfold joined. intros Hj.
  destruct (ptr_pc l) eqn:Hp.
  - exists RunPtr. unfold lstep. rewrite Hp.
    destruct (net_LookupAddr W _); eauto.
  - exists RunMeta. unfold lstep.
    destruct (meta_pc l) eqn:Hm; try done; eauto.
    + destruct (getIPInfo W _) as [i [e|]]; eauto.
    + destruct (Error (result l)); eauto.
Qed.

(** While [done] is open, some working goroutine can take a step that
    does not end the process. *)
Lemma progress (launched : list (string * bool)) (s : State) :
  Inv launched s -> exited s = None -> done_closed s = false ->
  exists a s', is_work a = true /\ step W s a = Some s' /\ exited s' = None.
Proof.
  intros Hinv Hex Hd.
  destruct (all_exited (enrichers s)) eqn:Hall.
  - destruct (chanClosed s) eqn:Hc.
    + destruct (resultChan s) as [|r rest] eqn:Hch.
      * exists CloseDone. unfold step. rewrite Hex, Hch, Hc, Hd. eauto.
      * exists Collect. unfold step. rewrite Hex, Hch, Hd. eauto.
    + exists CloseChan. unfold step. rewrite Hex, Hall, Hc. eauto.
  - destruct (not_all_exited _ Hall) as (i & [l ph] & Hi & Hph).
    destruct (chanClosed s) eqn:Hc.
    { pose proof (inv_closed _ _ Hinv Hc). congruence. }
    destruct ph; [|exists (WgDone i); unfold step; rewrite Hex, Hi; eauto|done].
    destruct (joined l) eqn:Hj.
    + destruct (decide (length (resultChan s) < chanCap)) as [Hlen|Hlen].
      * exists (Send i). unfold step. rewrite Hex, Hi, Hj, Hc.
        rewrite bool_decide_true by done. eauto.
      * exists Collect. unfold step. rewrite Hex, Hd.
        destruct (resultChan s); [cbn in Hlen; unfold chanCap in Hlen; lia|eauto].
    + destruct (lstep_enabled l Hj) as (la & l' & Hl).
      exists (Inner i la). unfold step. rewrite Hex, Hi, Hl. eauto.
Qed.

(** When [done] is closed every launched Address has its Result
    collected. *)
Lemma done_results (launched : list (string * bool)) (s : State) :
  Inv launched s -> done_closed s = true ->
  map raddr (results s) ≡ₚ launched.
Proof.
  intros [Haddrs Hperm Hclosed Hdone _ _] Hd.
  destruct (Hdone Hd) as [Hc Hch].
  rewrite Hch, app_nil_r in Hperm.
  by rewrite Hperm, (all_exited_sent _ (Hclosed Hc)), Haddrs.
Qed.

(** From every state of a run that has not exited, the working
    goroutines can finish and [main] can leave through [done],
    printing one block per launched Address. *)
Lemma completes (launched : list (string * bool)) (n : nat) (s : State) :
  measure s <= n -> Inv launched s -> exited s = None ->
  exists work s',
    forallb is_work work = true
    /\ run W s (work ++ [SelectDone]) = Some s'
    /\ exited s' = Some 0%Z
    /\ (OutCancelled ∉ stdout s')
    /\ blocks (stdout s') = map printResult (results s')
    /\ map raddr (results s') ≡ₚ launched.
Proof.
  revert s. induction n as [|n IH]; intros s Hn Hinv Hex.
  all: destruct (done_closed s) eqn:Hd.
  1,3: exists [], (exit (print s (OutClear :: map (fun r => OutBlock (printResult r))
                                                (results s))) 0).
  1,2: pose proof (inv_exit _ _ Hinv) as Hb; rewrite Hex in Hb;
    cbn; unfold step; rewrite Hex, Hd; split; [done|]; split; [done|];
    split; [done|]; split; [|split];
    [ apply not_cancelled_done, Hb
    | rewrite blocks_app, (proj1 Hb); apply blocks_of_results
    | by apply (done_results launched) ].
  all: destruct (progress launched s Hinv Hex Hd) as (a & s1 & Hw & Hs & Hex1);
    pose proof (step_measure _ _ _ Hs Hw Hex1) as Hlt.
  - lia.
  - destruct (IH s1) as (work & s' & Hwork & Hrun & Hres);
      [lia|by eapply step_inv|done|].
    exists (a :: work), s'. cbn. rewrite Hw, Hwork, Hs. auto.
Qed.

End PipelineInvariant.

(** ** Properties of the pipeline *)



(** ** [main]: the sequential prefix *)

Section MainFacts.
Variable W : World.

Lemma launch_loop_selection (cli : CLI) (ips : list net_IP) :
  launch_loop W cli ips = (length (selection W cli ips), selection W cli ips).
Proof.
  unfold launch_loop, selection.
  enough (Hgen : forall n acc,
    fold_left
      (fun (st : nat * list (string * bool)) (ip : net_IP) =>
         let '(totalIPs, launched) := st in
         let isIPv6 := isIPv6_of W ip in
         if selected cli isIPv6
         then (S totalIPs, launched ++ [(IP_String W ip, isIPv6)])
         else (totalIPs, launched)) ips (n, acc)
    = (n + length (map (fun ip => (IP_String W ip, isIPv6_of W ip))
                       (List.filter (fun ip => selected cli (isIPv6_of W ip)) ips)),
       acc ++ map (fun ip => (IP_String W ip, isIPv6_of W ip))
                  (List.filter (fun ip => selected cli (isIPv6_of W ip)) ips)))
    by apply (Hgen 0 []).
  induction ips as [|ip ips IH]; intros n acc; cbn.
  - by rewrite Nat.add_0_r, app_nil_r.
  - destruct (selected cli (isIPv6_of W ip)); cbn; rewrite IH.
    + rewrite <- app_assoc. f_equal. lia.
    + done.
Qed.

(** The three ways [main] ends. *)
Lemma main_cases (cli : CLI) (sched : list Action) (x : Exit) :
  main W cli sched = Some x ->
  match fst (validateInput W (Target cli)) with
  | Some err => x = mkExit 1 [OutError err] (snd (validateInput W (Target cli)))
  | None =>
      match fst (candidates W (Target cli)) with
      | inl err =>
          x = mkExit 1 [OutLookupError err]
                     (snd (validateInput W (Target cli))
                      ++ snd (candidates W (Target cli)))
      | inr ips =>
          exists s c,
            run W (pipeline_init (length (selection W cli ips))
                                 (selection W cli ips)) sched = Some s
            /\ exited s = Some c
            /\ x = mkExit c (stdout s)
                          (snd (validateInput W (Target cli))
                           ++ snd (candidates W (Target cli)))
      end
  end.
Proof.
  unfold main. intros H.
  destruct (validateInput W (Target cli)) as [[err|] c1]; cbn.
  - by injection H as <-.
  - destruct (candidates W (Target cli)) as [[err|ips] c2]; cbn.
    + by injection H as <-.
    + rewrite launch_loop_selection in H.
      destruct (run W _ sched) as [s|]; [|done].
      destruct (exited s) as [c|] eqn:Hex; [|done].
      injection H as <-. eauto.
Qed.

(** A run of the pipeline that ended, seen through the invariant. *)
Lemma exited_run (launched : list (string * bool)) (sched : list Action)
      (s : State) (c : Z) :
  run W (pipeline_init (length launched) launched) sched = Some s ->
  exited s = Some c ->
  c = 0%Z
  /\ Forall (fun o => is_failure o = false) (stdout s)
  /\ (((OutCancelled ∈ stdout s) /\ blocks (stdout s) = [])
      \/ ((OutCancelled ∉ stdout s)
          /\ blocks (stdout s) = map printResult (results s)
          /\ map raddr (results s) ≡ₚ launched)).
Proof.
  intros Hrun Hex.
  pose proof (run_inv W launched sched _ _ (init_inv _ launched) Hrun) as Hinv.
  pose proof (inv_exit _ _ Hinv) as He. rewrite Hex in He.
  destruct He as [-> He]. split; [done|]. split; [apply Hinv|].
  destruct He as [He|(Hnc & Hd & Hb)]; [by left|right].
  repeat split; [done..|]. by apply done_results.
Qed.

Lemma literal_validates (input : string) (ip : net_IP) :
  net_ParseIP W input = Some ip ->
  validateInput W input = (None, []) /\ candidates W input = (inr [ip], []).
Proof. unfold validateInput, candidates. by intros ->. Qed.

(** [main] can always return: when validation and resolution succeed,
    the schedule that lets the working goroutines finish and then takes
    the [done] case is a run. *)
Lemma main_returns (cli : CLI) :
  exists sched x, main W cli sched = Some x /\ (OutCancelled ∉ out x).
Proof.
  unfold main.
  destruct (validateInput W (Target cli)) as [[err|] c1].
  { exists [], (mkExit 1 [OutError err] c1). split; [done|].
    by intros H%list_elem_of_singleton. }
  destruct (candidates W (Target cli)) as [[err|ips] c2].
  { exists [], (mkExit 1 [OutLookupError err] (c1 ++ c2)). split; [done|].
    by intros H%list_elem_of_singleton. }
  rewrite launch_loop_selection.
  set (launched := selection W cli ips).
  set (s0 := pipeline_init (length launched) launched).
  destruct (completes W launched (measure s0) s0)
    as (work & s' & _ & Hrun & Hex & Hnc & _); [done|apply init_inv|done|].
  exists (work ++ [SelectDone]), (mkExit 0 (stdout s') (c1 ++ c2)).
  by rewrite Hrun, Hex.
Qed.

End MainFacts.

(** ** Properties of [main] *)

(** C7.  When the input parses as a literal IP address, [validateInput]
    succeeds and the candidate addresses are that one address, both
    without a forward-resolution call; no run of [main] on such a
    Target makes one. *)
Theorem literal_IP_is_its_own_candidate
        (W : World) (input : string) (ip : net_IP) :
  net_ParseIP W input = Some ip ->
  validateInput W input = (None, [])
  /\ candidates W input = (inr [ip], [])
  /\ forall cli sched x,
       Target cli = input -> main W cli sched = Some x -> calls x = [].
Proof.
  intros Hparse.
  destruct (literal_validates W input ip Hparse) as [Hv Hc].
  split; [done|]. split; [done|].
  intros cli sched x Ht Hmain. apply main_cases in Hmain.
  rewrite Ht, Hv, Hc in Hmain. cbn in Hmain.
  by destruct Hmain as (s & c & _ & _ & ->).
Qed.

Lemma literal_IP_is_its_own_candidate_witness :
  net_ParseIP Sample.healthy "8.8.8.8" = Some Sample.google_v4
  /\ validateInput Sample.healthy "8.8.8.8" = (None, [])
  /\ candidates Sample.healthy "8.8.8.8" = (inr [Sample.google_v4], []).
Proof.
  split; [reflexivity|].
  pose proof (literal_IP_is_its_own_candidate Sample.healthy "8.8.8.8"
                Sample.google_v4 eq_refl) as (Hv & Hc & _).
  exact (conj Hv Hc).
Defined.

(** C6.  The launch loop selects an Address exactly when the filter
    requests its family or requests neither family; it launches one
    enricher for each selected Address of [ips], in order, and counts
    them in [totalIPs]; and when no Address is selected every run ends
    with exit code 0, reports no failure and prints no block, and the
    run in which nothing interferes prints the empty report. *)
Theorem family_filter_selects (W : World) (cli : CLI) (ips : list net_IP) :
  (forall isIPv6,
      selected cli isIPv6 = true
      <-> (IPv4 cli = true /\ isIPv6 = false)
          \/ (IPv6 cli = true /\ isIPv6 = true)
          \/ (IPv4 cli = false /\ IPv6 cli = false))
  /\ launch_loop W cli ips = (length (selection W cli ips), selection W cli ips)
  /\ enrichers (pipeline_init (length (selection W cli ips)) (selection W cli ips))
     = map (fun ip => mkEnricher (lookup_init (IP_String W ip) (isIPv6_of W ip)) Running)
           (List.filter (fun ip => selected cli (isIPv6_of W ip)) ips)
  /\ (fst (validateInput W (Target cli)) = None ->
      fst (candidates W (Target cli)) = inr ips ->
      selection W cli ips = [] ->
      (forall sched x,
          main W cli sched = Some x ->
          code x = 0%Z
          /\ Forall (fun o => is_failure o = false) (out x)
          /\ blocks (out x) = [])
      /\ exists c,
          main W cli [CloseChan; CloseDone; SelectDone]
          = Some (mkExit 0 [OutChecking; OutClear] c)).
Proof.
  split; [|split; [|split]].
  - intros isIPv6. unfold selected.
    destruct (IPv4 cli), (IPv6 cli), isIPv6; cbn; intuition congruence.
  - apply launch_loop_selection.
  - unfold selection. cbn. by rewrite map_map.
  - intros Hv Hc Hsel. split.
    + intros sched x Hmain. apply main_cases in Hmain.
      rewrite Hv, Hc in Hmain. destruct Hmain as (s & c & Hrun & Hex & ->).
      destruct (exited_run W _ _ _ _ Hrun Hex) as (-> & Hout & Hb).
      cbn. split; [done|]. split; [done|].
      destruct Hb as [[_ Hb]|(_ & Hb & Hp)]; [done|].
      rewrite Hsel in Hp. apply Permutation_nil_r in Hp.
      apply map_eq_nil in Hp. by rewrite Hb, Hp.
    + unfold main.
      destruct (validateInput W (Target cli)) as [verr c1]. cbn in Hv. subst verr.
      destruct (candidates W (Target cli)) as [r c2]. cbn in Hc. subst r.
      rewrite launch_loop_selection, Hsel. cbn. eauto.
Qed.

Lemma family_filter_selects_witness :
  launch_loop Sample.healthy (Sample.cli true false "dns.google")
              [Sample.google_v4; Sample.google_v6]
  = (1, [("8.8.8.8", false)]).
Proof.
  exact (proj1 (proj2 (family_filter_selects Sample.healthy
                         (Sample.cli true false "dns.google")
                         [Sample.google_v4; Sample.google_v6]))).
Defined.

(** C10.  For a Target that is a literal IP address whose family the
    filter excludes (only IPv4 requested and the address is IPv6, or
    only IPv6 requested and the address is IPv4), the launch loop
    starts no enricher, every run of
    [main] ends with exit code 0, prints no block, reports no failure
    and makes no resolution call, and the run in which nothing
    interferes prints the empty report. *)
Theorem excluded_literal_gives_empty_report
        (W : World) (cli : CLI) (ip : net_IP) :
  net_ParseIP W (Target cli) = Some ip ->
  (IPv4 cli = true /\ IPv6 cli = false /\ isIPv6_of W ip = true)
  \/ (IPv4 cli = false /\ IPv6 cli = true /\ isIPv6_of W ip = false) ->
  launch_loop W cli [ip] = (0, [])
  /\ (forall sched x,
         main W cli sched = Some x ->
         code x = 0%Z
         /\ blocks (out x) = []
         /\ Forall (fun o => is_failure o = false) (out x)
         /\ calls x = [])
  /\ main W cli [CloseChan; CloseDone; SelectDone]
     = Some (mkExit 0 [OutChecking; OutClear] []).
Proof.
  intros Hparse Hexcl.
  assert (Hsel : selected cli (isIPv6_of W ip) = false).
  { unfold selected.
    destruct Hexcl as [(-> & -> & ->)|(-> & -> & ->)]; reflexivity. }
  destruct (literal_validates W _ ip Hparse) as [Hv Hc].
  assert (Hloop : launch_loop W cli [ip] = (0, []))
    by (unfold launch_loop; cbn; by rewrite Hsel).
  split; [done|]. split.
  - intros sched x Hmain. apply main_cases in Hmain.
    rewrite Hv, Hc in Hmain. cbn in Hmain.
    destruct Hmain as (s & c & Hrun & Hex & ->).
    unfold selection in Hrun. cbn in Hrun. rewrite Hsel in Hrun.
    destruct (exited_run W [] _ _ _ Hrun Hex) as (-> & Hout & Hb).
    cbn. repeat split; [|done].
    destruct Hb as [[_ Hb]|(_ & Hb & Hp)]; [done|].
    apply Permutation_nil_r in Hp. apply map_eq_nil in Hp. by rewrite Hb, Hp.
  - unfold main. rewrite Hv, Hc, Hloop. reflexivity.
Qed.

Lemma excluded_literal_gives_empty_report_witness :
  net_ParseIP Sample.healthy (Target (Sample.cli false true "8.8.8.8"))
  = Some Sample.google_v4
  /\ ((IPv4 (Sample.cli false true "8.8.8.8") = true
       /\ IPv6 (Sample.cli false true "8.8.8.8") = false
       /\ isIPv6_of Sample.healthy Sample.google_v4 = true)
      \/ (IPv4 (Sample.cli false true "8.8.8.8") = false
          /\ IPv6 (Sample.cli false true "8.8.8.8") = true
          /\ isIPv6_of Sample.healthy Sample.google_v4 = false))
  /\ main Sample.healthy (Sample.cli false true "8.8.8.8")
          [CloseChan; CloseDone; SelectDone]
     = Some (mkExit 0 [OutChecking; OutClear] []).
Proof.
  split; [reflexivity|]. split; [right; repeat split|].
  apply (excluded_literal_gives_empty_report Sample.healthy
           (Sample.cli false true "8.8.8.8") Sample.google_v4);
    [reflexivity|right; repeat split].
Defined.

(** C4 as stated fails: a run that is interrupted by the user ends with
    exit code 0. *)
Lemma interrupt_exits_with_code_0 :
  main Sample.healthy (Sample.cli false false "8.8.8.8")
       [Signal; Cancel; SelectCancelled]
  = Some (mkExit 0 [OutChecking; OutInterrupt; OutCancelled] []).
Proof. reflexivity. Qed.

(** C4, amended.  The process exits with code 1 exactly when validation
    or resolution of the Target fails, and with code 0 otherwise: on
    normal completion and also when the run is cancelled by a user
    interrupt. *)
Theorem exit_codes (W : World) (cli : CLI) (sched : list Action) (x : Exit) :
  main W cli sched = Some x ->
  (code x = 1%Z
   <-> (exists err, fst (validateInput W (Target cli)) = Some err)
       \/ (exists err, fst (candidates W (Target cli)) = inl err))
  /\ (code x = 0%Z
      <-> fst (validateInput W (Target cli)) = None
          /\ exists ips, fst (candidates W (Target cli)) = inr ips)
  /\ (OutCancelled ∈ out x -> code x = 0%Z).
Proof.
  intros Hmain. apply main_cases in Hmain.
  destruct (fst (validateInput W (Target cli))) as [err|].
  { subst x. cbn. split; [|split].
    - split; [intros _; left; eauto|done].
    - split; [discriminate|]. intros [H _]. discriminate H.
    - intros H%list_elem_of_singleton. discriminate H. }
  destruct (fst (candidates W (Target cli))) as [err|ips].
  { subst x. cbn. split; [|split].
    - split; [intros _; right; eauto|done].
    - split; [discriminate|]. intros [_ [ips H]]. discriminate H.
    - intros H%list_elem_of_singleton. discriminate H. }
  destruct Hmain as (s & c & Hrun & Hex & ->).
  destruct (exited_run W _ _ _ _ Hrun Hex) as (-> & _). cbn.
  split; [|split].
  - split; [discriminate|]. intros [[err H]|[err H]]; discriminate H.
  - split; [eauto|done].
  - done.
Qed.

Lemma exit_codes_witness :
  main Sample.healthy (Sample.cli false false "nosuch.invalid") []
  = Some (mkExit 1 [OutError "invalid domain or IP address: no such host"]
                 [CallLookupHost "nosuch.invalid"])
  /\ (code (mkExit 1 [OutError "invalid domain or IP address: no such host"]
                   [CallLookupHost "nosuch.invalid"]) = 1%Z
      <-> (exists err,
              fst (validateInput Sample.healthy "nosuch.invalid") = Some err)
          \/ (exists err,
                 fst (candidates Sample.healthy "nosuch.invalid") = inl err)).
Proof.
  split; [reflexivity|].
  apply (exit_codes Sample.healthy (Sample.cli false false "nosuch.invalid") []).
  reflexivity.
Defined.

(** C5 as stated fails: cancellation fires when no Result has been
    produced, the enricher still finishes, [done] is closed before
    [main] runs its select, the select takes the [done] case, and the
    block of the Address is printed. *)
Lemma cancelled_run_prints_report :
  (exists s1,
      run Sample.fetch_cancelled (pipeline_init 1 [("8.8.8.8", false)])
          [Signal; Cancel] = Some s1
      /\ cancelled s1 = true
      /\ results s1 = [] /\ resultChan s1 = []
      /\ sent_addrs (enrichers s1) = [])
  /\ main Sample.fetch_cancelled (Sample.cli false false "8.8.8.8")
          [Signal; Cancel;
           Inner 0 RunPtr; Inner 0 RunMeta; Inner 0 RunMeta; Inner 0 RunMeta;
           Send 0; WgDone 0; CloseChan; Collect; CloseDone; SelectDone]
     = Some (mkExit 0
               [OutChecking; OutInterrupt; OutClear;
                OutBlock ["A Record: 8.8.8.8"; "  PTR Records: dns.google.";
                          "  Error: error fetching IP info: context canceled";
                          ""]]
               []).
Proof.
  split; [|reflexivity].
  eexists. split; [reflexivity|]. repeat split.
Qed.

(** C5, amended.  When [main] leaves through the cancellation case of
    its select, no block is printed: what was collected is discarded.
    Blocks are printed only when [main] leaves through the [done] case,
    and then there is exactly one block per selected Address, so no
    partial report is ever printed and no Result is printed twice. *)
Theorem cancelled_exit_prints_no_block
        (W : World) (cli : CLI) (sched : list Action) (x : Exit) :
  main W cli sched = Some x ->
  (OutCancelled ∈ out x -> blocks (out x) = [])
  /\ (forall ips,
         fst (validateInput W (Target cli)) = None ->
         fst (candidates W (Target cli)) = inr ips ->
         OutCancelled ∉ out x ->
         exists rs,
           blocks (out x) = map printResult rs
           /\ map raddr rs ≡ₚ selection W cli ips)
  /\ (blocks (out x) = []
      \/ exists ips rs,
           fst (candidates W (Target cli)) = inr ips
           /\ blocks (out x) = map printResult rs
           /\ map raddr rs ≡ₚ selection W cli ips).
Proof.
  intros Hmain. apply main_cases in Hmain.
  destruct (fst (validateInput W (Target cli))) as [err|].
  { subst x. cbn. repeat split; try done; auto. }
  destruct (fst (candidates W (Target cli))) as [err|ips].
  { subst x. cbn. repeat split; try done; auto. }
  destruct Hmain as (s & c & Hrun & Hex & ->).
  destruct (exited_run W _ _ _ _ Hrun Hex) as (-> & _ & Hb). cbn.
  destruct Hb as [[Hc Hb]|(Hnc & Hb & Hp)].
  - split; [done|]. split; [|by left].
    intros ips' _ _ Hnc. done.
  - split; [done|]. split.
    + intros ips' _ [= <-] _. eauto.
    + right. eauto.
Qed.

Lemma cancelled_exit_prints_no_block_witness :
  main Sample.healthy (Sample.cli false false "8.8.8.8")
       [Signal; Cancel; SelectCancelled]
  = Some (mkExit 0 [OutChecking; OutInterrupt; OutCancelled] [])
  /\ (OutCancelled ∈ [OutChecking; OutInterrupt; OutCancelled])
  /\ blocks [OutChecking; OutInterrupt; OutCancelled] = [].
Proof.
  split; [reflexivity|].
  split; [rewrite !elem_of_cons; auto|].
  apply (proj1 (cancelled_exit_prints_no_block Sample.healthy
                  (Sample.cli false false "8.8.8.8")
                  [Signal; Cancel; SelectCancelled]
                  (mkExit 0 [OutChecking; OutInterrupt; OutCancelled] [])
                  eq_refl)).
  cbn. rewrite !elem_of_cons; auto.
Defined.


(** ** Two runs of the program *)

(** [chk 8.8.8.8] with both sub-lookups answering: one block, record
    type A, the PTR line, the five metadata lines, no error line. *)
Example run_literal_v4 :
  main Sample.healthy (Sample.cli false false "8.8.8.8")
       [Inner 0 RunMeta; Inner 0 RunPtr; SelectTick; Send 0; WgDone 0;
        CloseChan; Collect; SelectTick; CloseDone; SelectDone]
  = Some (mkExit 0
            [OutChecking; OutProgress 0 1; OutProgress 1 1; OutClear;
             OutBlock ["A Record: 8.8.8.8"; "  PTR Records: dns.google.";
                       "  City: "; "  Region: "; "  Country: ";
                       "  Location: "; "  Organization: "; ""]]
            []).
Proof. reflexivity. Qed.

(** [chk -4 dns.google]: of the two resolved addresses only the IPv4
    one gets an enricher and a block. *)
Example run_domain_ipv4_only :
  main Sample.no_ptr (Sample.cli true false "dns.google")
       [Inner 0 RunPtr; Inner 0 RunMeta; Send 0; WgDone 0;
        CloseChan; Collect; CloseDone; SelectDone]
  = Some (mkExit 0
            [OutChecking; OutClear;
             OutBlock ["A Record: 8.8.8.8";
                       "  City: "; "  Region: "; "  Country: ";
                       "  Location: "; "  Organization: ";
                       "  Error: error looking up PTR records: no such host";
                       ""]]
            [CallLookupHost "dns.google"; CallLookupIP "dns.google"]).
Proof. reflexivity. Qed.

(** ** More on the enricher *)

(** X1.  For an Address whose metadata fetch fails while the reverse
    lookup succeeds, every complete run of the enricher, under every
    schedule, sends a Result with the names found, no Metadata Record,
    and the error [error fetching IP info: <err>]; and such a run
    exists. *)
Theorem lookupIP_metadata_fails_reverse_ok
        (W : World) (ip : string) (isIPv6 : bool)
        (names : list string) (i : option IPInfo) (e2 : error) :
  net_LookupAddr W ip = inr names ->
  getIPInfo W ip = (i, Some e2) ->
  (forall sched r,
      lookupIP W ip isIPv6 sched = Some r ->
      PTR r = names /\ Info r = None
      /\ Error r = Some ("error fetching IP info: " +:+ e2)
      /\ raddr r = (ip, isIPv6))
  /\ (exists sched r, lookupIP W ip isIPv6 sched = Some r).
Proof.
  intros E1 E2. split.
  - intros sched r H. apply lookupIP_cases in H.
    rewrite E1, E2 in H. subst r. auto.
  - apply lookupIP_completes.
Qed.

Lemma lookupIP_metadata_fails_reverse_ok_witness :
  net_LookupAddr Sample.fetch_cancelled "8.8.8.8" = inr ["dns.google."]
  /\ getIPInfo Sample.fetch_cancelled "8.8.8.8" = (None, Some "context canceled")
  /\ (forall sched r,
        lookupIP Sample.fetch_cancelled "8.8.8.8" false sched = Some r ->
        PTR r = ["dns.google."] /\ Info r = None
        /\ Error r = Some ("error fetching IP info: " +:+ "context canceled")
        /\ raddr r = ("8.8.8.8", false))
  /\ (exists sched r, lookupIP Sample.fetch_cancelled "8.8.8.8" false sched = Some r).
Proof.
  split; [reflexivity|]. split; [reflexivity|].
  apply (lookupIP_metadata_fails_reverse_ok Sample.fetch_cancelled "8.8.8.8" false
           ["dns.google."] None "context canceled"); reflexivity.
Defined.

(** X2.  Whatever the schedule, the Result sent by the enricher has no
    error exactly when both sub-lookups succeeded: a failure of either
    one is never lost altogether. *)
Theorem lookupIP_error_iff_failure
        (W : World) (ip : string) (isIPv6 : bool) (sched : list LAction) (r : Result) :
  lookupIP W ip isIPv6 sched = Some r ->
  (Error r = None
   <-> (exists names, net_LookupAddr W ip = inr names)
       /\ (exists i, getIPInfo W ip = (i, None))).
Proof.
  intros H. apply lookupIP_cases in H.
  destruct (net_LookupAddr W ip) as [e1|names] eqn:E1;
    destruct (getIPInfo W ip) as [i [e2|]] eqn:E2.
  - split.
    + destruct H as [->|[->| ->]]; discriminate.
    + intros [[names Hn] _]. discriminate Hn.
  - subst r. split; [discriminate|]. intros [[names Hn] _]. discriminate Hn.
  - subst r. split; [discriminate|]. intros [_ [i' Hi]]. discriminate Hi.
  - subst r. split; [eauto|done].
Qed.

Lemma lookupIP_error_iff_failure_witness :
  lookupIP Sample.healthy "8.8.8.8" false [RunMeta; RunPtr]
  = Some (mkResult "8.8.8.8" ["dns.google."] (Some Sample.empty_info) false None)
  /\ (Error (mkResult "8.8.8.8" ["dns.google."] (Some Sample.empty_info) false None)
      = None
      <-> (exists names, net_LookupAddr Sample.healthy "8.8.8.8" = inr names)
          /\ (exists i, getIPInfo Sample.healthy "8.8.8.8" = (i, None))).
Proof.
  split; [reflexivity|].
  apply (lookupIP_error_iff_failure Sample.healthy "8.8.8.8" false [RunMeta; RunPtr]).
  reflexivity.
Defined.

(** X3.  Whatever the schedule and the outcomes, the Result sent by the
    enricher is for the Address it was started with, its PTR Set is
    empty or the list [net.LookupAddr] returned, and its Metadata
    Record is absent or the record [getIPInfo] returned. *)
Theorem lookupIP_fields_from_lookups
        (W : World) (ip : string) (isIPv6 : bool) (sched : list LAction) (r : Result) :
  lookupIP W ip isIPv6 sched = Some r ->
  raddr r = (ip, isIPv6)
  /\ (PTR r = [] \/ net_LookupAddr W ip = inr (PTR r))
  /\ (Info r = None \/ getIPInfo W ip = (Info r, None)).
Proof.
  intros H. apply lookupIP_cases in H.
  destruct (net_LookupAddr W ip) as [e1|names] eqn:E1;
    destruct (getIPInfo W ip) as [i [e2|]] eqn:E2.
  - destruct H as [->|[->| ->]]; auto.
  - subst r. auto.
  - subst r. auto.
  - subst r. auto.
Qed.

Lemma lookupIP_fields_from_lookups_witness :
  lookupIP Sample.no_ptr "8.8.8.8" false [RunPtr; RunMeta]
  = Some (mkResult "8.8.8.8" [] (Some Sample.empty_info) false
            (Some "error looking up PTR records: no such host"))
  /\ raddr (mkResult "8.8.8.8" [] (Some Sample.empty_info) false
              (Some "error looking up PTR records: no such host"))
     = ("8.8.8.8", false).
Proof.
  split; [reflexivity|].
  apply (lookupIP_fields_from_lookups Sample.no_ptr "8.8.8.8" false [RunPtr; RunMeta]).
  reflexivity.
Defined.

Section EnricherTermination.
Variable W : World.

Lemma lrun_length (s s' : LState) (sched : list LAction) :
  lrun W s sched = Some s' -> length sched + lmeasure s' <= lmeasure s.
Proof.
  revert s. induction sched as [|a sched IH]; intros s H; cbn in H.
  - injection H as <-. cbn. lia.
  - destruct (lstep W s a) as [s1|] eqn:Hs; [|done].
    apply lstep_measure in Hs. apply IH in H. cbn. lia.
Qed.

Lemma lrun_app (s : LState) (sched1 sched2 : list LAction) :
  lrun W s (sched1 ++ sched2)
  = match lrun W s sched1 with
    | Some s1 => lrun W s1 sched2
    | None => None
    end.
Proof.
  revert s. induction sched1 as [|a sched1 IH]; intros s; cbn; [done|].
  destruct (lstep W s a); [apply IH|done].
Qed.

Lemma lrun_joins (n : nat) (s : LState) :
  lmeasure s <= n ->
  exists rest s', lrun W s rest = Some s' /\ joined s' = true.
Proof.
  revert s. induction n as [|n IH]; intros s Hn.
  all: destruct (joined s) eqn:Hj; [by exists [], s|].
  all: destruct (lstep_enabled W s Hj) as (a & s1 & Hs).
  all: pose proof (lstep_measure W _ _ _ Hs) as Hlt.
  - lia.
  - destruct (IH s1) as (rest & s' & Hrun & Hj'); [lia|].
    exists (a :: rest), s'. cbn. by rewrite Hs.
Qed.
End EnricherTermination.

(** X4.  The two inner goroutines of the enricher always join: a run of
    them takes at most five steps, a complete run at least two, and
    every run that is not complete can be continued to a complete one,
    so [wgInternal.Wait()] returns and the Result is sent. *)
Theorem lookupIP_inner_goroutines_join
        (W : World) (ip : string) (isIPv6 : bool) (sched : list LAction) (s : LState) :
  lrun W (lookup_init ip isIPv6) sched = Some s ->
  length sched <= 5
  /\ (joined s = true -> 2 <= length sched)
  /\ exists rest r, lookupIP W ip isIPv6 (sched ++ rest) = Some r.
Proof.
  intros Hrun. split; [|split].
  - apply lrun_length in Hrun.
    change (lmeasure (lookup_init ip isIPv6)) with 5 in Hrun. lia.
  - intros Hj. destruct sched as [|a [|b sched]]; cbn; try lia.
    + injection Hrun as <-. discriminate Hj.
    + cbn in Hrun. destruct (lstep W _ a) as [s1|] eqn:Hs; [|done].
      injection Hrun as <-. unfold lstep in Hs. cbn in Hs.
      destruct a; repeat case_match; simplify_eq; discriminate Hj.
  - destruct (lrun_joins W (lmeasure s) s) as (rest & s' & Hrest & Hj); [done|].
    exists rest, (result s'). unfold lookupIP.
    by rewrite lrun_app, Hrun, Hrest, Hj.
Qed.

Lemma lookupIP_inner_goroutines_join_witness :
  lrun Sample.both_fail (lookup_init "8.8.8.8" false) [RunMeta; RunPtr]
  = Some (mkLState (mkResult "8.8.8.8" [] None false
                      (Some "error looking up PTR records: no such host"))
                   PtrDone (MetaFailed "context deadline exceeded"))
  /\ exists rest r,
      lookupIP Sample.both_fail "8.8.8.8" false ([RunMeta; RunPtr] ++ rest) = Some r.
Proof.
  split; [reflexivity|].
  apply (lookupIP_inner_goroutines_join Sample.both_fail "8.8.8.8" false
           [RunMeta; RunPtr] _ eq_refl).
Defined.

(** X5.  The enricher with goroutines agrees with the sequential
    [lookupIP] when the two variants' HTTP calls give the same answer:
    the schedule that runs the reverse lookup first sends the
    sequential Result, and unless both sub-lookups fail every schedule
    does. *)
Theorem lookupIP_agrees_with_sequential
        (W : World) (ip : string) (isIPv6 : bool) :
  Sequential.getIPInfo W ip = getIPInfo W ip ->
  lookupIP W ip isIPv6 (ptr_first (reverse_fails W ip) (fetch_fails W ip))
  = Some (Sequential.lookupIP W ip isIPv6)
  /\ (reverse_fails W ip && fetch_fails W ip = false ->
      forall sched r,
        lookupIP W ip isIPv6 sched = Some r ->
        r = Sequential.lookupIP W ip isIPv6).
Proof.
  intros Hseq.
  pose proof (lookupIP_ptr_first W ip isIPv6 Hseq) as Hfirst.
  split; [done|].
  intros Hnot sched r Hr.
  eapply (lookupIP_deterministic_unless_both_fail W ip isIPv6); [|done..].
  intros e1 e2 i [E1 E2]. unfold reverse_fails, fetch_fails in Hnot.
  by rewrite E1, E2 in Hnot.
Qed.

Lemma lookupIP_agrees_with_sequential_witness :
  Sequential.getIPInfo Sample.no_ptr "8.8.8.8" = getIPInfo Sample.no_ptr "8.8.8.8"
  /\ lookupIP Sample.no_ptr "8.8.8.8" false [RunPtr; RunMeta]
     = Some (Sequential.lookupIP Sample.no_ptr "8.8.8.8" false).
Proof.
  split; [reflexivity|].
  apply (lookupIP_agrees_with_sequential Sample.no_ptr "8.8.8.8" false).
  reflexivity.
Defined.

(** ** More on the pipeline *)

Section PipelineFacts.
Variable W : World.

Lemma collected_le_launched (launched : list (string * bool)) (s : State) :
  Inv launched s ->
  length (results s) + length (resultChan s) <= length launched.
Proof.
  intros Hinv.
  pose proof (inv_perm _ _ Hinv) as Hp. apply Permutation_length in Hp.
  rewrite length_map, length_app in Hp.
  pose proof (submseteq_length _ _ (sent_addrs_sub (enrichers s))) as Hs.
  rewrite (inv_addrs _ _ Hinv) in Hs. lia.
Qed.

Lemma init_inv2 (launched : list (string * bool)) :
  Inv2 launched (pipeline_init (length launched) launched).
Proof.
  split; cbn; try done.
  - unfold chanCap. lia.
  - repeat constructor.
  - by exists [].
Qed.

Lemma interrupts_app (o o' : list Out) :
  length (List.filter is_interrupt (o ++ o'))
  = length (List.filter is_interrupt o) + length (List.filter is_interrupt o').
Proof. by rewrite List.filter_app, length_app. Qed.

Lemma step_inv2 (launched : list (string * bool)) (s s' : State) (a : Action) :
  Inv launched s -> Inv2 launched s -> step W s a = Some s' -> Inv2 launched s'.
Proof.
  intros Hinv [Hcap Htotal Hprog Hcancel Hsig (status & Hstatus & Hlayout)] Hstep.
  pose proof (collected_le_launched _ _ Hinv) as Hle.
  unfold step in Hstep.
  destruct (exited s) eqn:Hex; [discriminate|].
  destruct a as [i la|i|i| | | | | | | | ].
  - destruct (enrichers s !! i) as [[l ph]|] eqn:Hi; [|done].
    destruct ph; try done.
    destruct (lstep W l la) as [l'|] eqn:Hl; [|done].
    injection Hstep as <-.
    split; cbn; rewrite ?Hex; eauto.
  - destruct (enrichers s !! i) as [[l ph]|] eqn:Hi; [|done].
    destruct ph; try done.
    destruct (joined l); [|done].
    destruct (chanClosed s) eqn:Hc.
    { pose proof (all_exited_lookup _ _ _ (inv_closed _ _ Hinv Hc) Hi). done. }
    case_bool_decide; [|done].
    injection Hstep as <-.
    split; cbn; rewrite ?Hex; eauto.
    rewrite length_app. cbn. lia.
  - destruct (enrichers s !! i) as [[l ph]|] eqn:Hi; [|done].
    destruct ph; try done.
    injection Hstep as <-.
    split; cbn; rewrite ?Hex; eauto.
  - destruct (all_exited (enrichers s) && negb (chanClosed s)); [|done].
    injection Hstep as <-.
    split; cbn; rewrite ?Hex; eauto.
  - destruct (done_closed s); [done|].
    destruct (resultChan s) as [|r rest] eqn:Hch; [done|].
    injection Hstep as <-.
    split; cbn; rewrite ?Hex; eauto.
    cbn in Hcap. lia.
  - destruct (resultChan s) as [|r rest] eqn:Hch; [|done].
    destruct (chanClosed s && negb (done_closed s)); [|done].
    injection Hstep as <-.
    split; cbn; rewrite ?Hex, ?Hch; eauto.
  - destruct (sig_pc s) eqn:Hpc; try done.
    injection Hstep as <-.
    split; cbn; rewrite ?Hex; eauto.
    + apply Forall_app. split; [done|]. by repeat constructor.
    + intros Hc. specialize (Hcancel Hc). congruence.
    + rewrite interrupts_app, Hsig. reflexivity.
    + exists (status ++ [OutInterrupt]). split.
      * rewrite forallb_app, Hstatus. reflexivity.
      * by rewrite Hlayout.
  - destruct (sig_pc s) eqn:Hpc; try done.
    injection Hstep as <-.
    split; cbn; rewrite ?Hex; eauto.
  - destruct (cancelled s) eqn:Hc; [|done].
    injection Hstep as <-.
    split; cbn; rewrite ?Hc; eauto.
    + apply Forall_app. split; [done|]. by repeat constructor.
    + rewrite interrupts_app, Hsig. cbn. lia.
    + exists status. split; [done|]. left. by rewrite Hlayout.
  - destruct (done_closed s) eqn:Hd; [|done].
    injection Hstep as <-.
    split; cbn; eauto.
    + apply Forall_app. split; [done|]. constructor; [done|].
      apply Forall_forall. intros o (r & -> & _)%list_elem_of_fmap. done.
    + rewrite interrupts_app, Hsig. cbn.
      enough (List.filter is_interrupt
                (map (fun r => OutBlock (printResult r)) (results s)) = []) as ->
        by (cbn; lia).
      generalize (results s) as rs. induction rs as [|r rs IH]; done.
    + exists status. split; [done|]. right. by rewrite Hlayout.
  - injection Hstep as <-.
    split; cbn; rewrite ?Hex; eauto.
    + apply Forall_app. split; [done|]. repeat constructor; cbn; lia.
    + rewrite interrupts_app, Hsig. cbn. lia.
    + exists (status ++ [OutProgress (length (results s)) (totalIPs s)]). split.
      * rewrite forallb_app, Hstatus. reflexivity.
      * by rewrite Hlayout.
Qed.

Lemma run_inv2 (launched : list (string * bool)) (sched : list Action) (s s' : State) :
  Inv launched s -> Inv2 launched s -> run W s sched = Some s' ->
  Inv launched s' /\ Inv2 launched s'.
Proof.
  revert s. induction sched as [|a sched IH]; intros s Hinv Hinv2 Hrun; cbn in Hrun.
  - by injection Hrun as <-.
  - destruct (step W s a) as [s1|] eqn:Hs; [|done].
    eapply IH; [| |done]; [by eapply step_inv|by eapply step_inv2].
Qed.

Lemma reachable_inv (launched : list (string * bool)) (sched : list Action) (s : State) :
  run W (pipeline_init (length launched) launched) sched = Some s ->
  Inv launched s /\ Inv2 launched s.
Proof. apply run_inv2; [apply init_inv|apply init_inv2]. Qed.

End PipelineFacts.

(** X6.  In every state of every run of the pipeline the result channel
    holds at most its capacity of ten Results, and collected plus
    buffered Results never outnumber the selected Addresses. *)
Theorem resultChan_within_capacity
        (W : World) (launched : list (string * bool)) (sched : list Action) (s : State) :
  run W (pipeline_init (length launched) launched) sched = Some s ->
  length (resultChan s) <= 10
  /\ length (results s) + length (resultChan s) <= length launched.
Proof.
  intros Hrun. destruct (reachable_inv W _ _ _ Hrun) as [Hinv Hinv2].
  split; [apply Hinv2|by apply collected_le_launched].
Qed.

Lemma resultChan_within_capacity_witness :
  exists s,
    run Sample.healthy (pipeline_init (length [("8.8.8.8", false)]) [("8.8.8.8", false)])
        [Inner 0 RunPtr; Inner 0 RunMeta; Send 0] = Some s
    /\ length (resultChan s) <= 10
    /\ length (results s) + length (resultChan s) <= 1.
Proof.
  eexists. split; [vm_compute; reflexivity|].
  apply (resultChan_within_capacity Sample.healthy [("8.8.8.8", false)]
           [Inner 0 RunPtr; Inner 0 RunMeta; Send 0] _ eq_refl).
Defined.

(** X7.  No enricher ever sends on a closed channel: in every state of
    every run, a send that can happen finds [resultChan] open, appends
    the enricher's Result to the buffer and does not end the process;
    no run prints a panic. *)
Theorem send_never_panics
        (W : World) (launched : list (string * bool)) (sched : list Action)
        (s s' : State) (i : nat) :
  run W (pipeline_init (length launched) launched) sched = Some s ->
  step W s (Send i) = Some s' ->
  chanClosed s = false
  /\ exited s' = None
  /\ (exists e, enrichers s !! i = Some e
                /\ resultChan s' = resultChan s ++ [result (local e)])
  /\ (OutPanic ∉ stdout s').
Proof.
  intros Hrun Hstep. destruct (reachable_inv W _ _ _ Hrun) as [Hinv _].
  assert (Hinv' : Inv launched s') by (by eapply step_inv).
  assert (Hpanic : OutPanic ∉ stdout s').
  { intros Hin. pose proof (inv_out _ _ Hinv') as Hout.
    rewrite Forall_forall in Hout. by specialize (Hout _ Hin). }
  unfold step in Hstep.
  destruct (exited s) eqn:Hex; [discriminate|].
  destruct (enrichers s !! i) as [[l ph]|] eqn:Hi; [|done].
  destruct ph; try done.
  destruct (joined l); [|done].
  destruct (chanClosed s) eqn:Hc.
  { pose proof (all_exited_lookup _ _ _ (inv_closed _ _ Hinv Hc) Hi). done. }
  case_bool_decide; [|done].
  injection Hstep as <-. cbn. rewrite Hex. eauto 10.
Qed.

Lemma send_never_panics_witness :
  exists s s',
    run Sample.healthy (pipeline_init (length [("8.8.8.8", false)]) [("8.8.8.8", false)])
        [Inner 0 RunPtr; Inner 0 RunMeta] = Some s
    /\ step Sample.healthy s (Send 0) = Some s'
    /\ chanClosed s = false /\ exited s' = None.
Proof.
  do 2 eexists. split; [vm_compute; reflexivity|]. split; [vm_compute; reflexivity|].
  pose proof (send_never_panics Sample.healthy [("8.8.8.8", false)]
                [Inner 0 RunPtr; Inner 0 RunMeta] _ _ 0 eq_refl eq_refl)
    as (Hc & Hex & _).
  exact (conj Hc Hex).
Defined.

(** X8.  The pipeline never deadlocks: in every state of a run in which
    the process has not exited, a goroutine other than the ticker case
    and the signal handler can take a step -- a working goroutine, or
    [main] through its [done] case; in particular an enricher blocked
    on the full channel is always released by the collector. *)
Theorem pipeline_never_stuck
        (W : World) (launched : list (string * bool)) (sched : list Action) (s : State) :
  run W (pipeline_init (length launched) launched) sched = Some s ->
  exited s = None ->
  exists a s', (is_work a = true \/ a = SelectDone) /\ step W s a = Some s'.
Proof.
  intros Hrun Hex. destruct (reachable_inv W _ _ _ Hrun) as [Hinv _].
  destruct (done_closed s) eqn:Hd.
  - exists SelectDone. unfold step. rewrite Hex, Hd. eauto.
  - destruct (progress W launched s Hinv Hex Hd) as (a & s' & Hw & Hs & _). eauto.
Qed.

Lemma pipeline_never_stuck_witness :
  exists s,
    run Sample.healthy (pipeline_init (length [("8.8.8.8", false)]) [("8.8.8.8", false)])
        [Inner 0 RunPtr; SelectTick] = Some s
    /\ exited s = None
    /\ exists a s', (is_work a = true \/ a = SelectDone)
                    /\ step Sample.healthy s a = Some s'.
Proof.
  eexists. split; [vm_compute; reflexivity|]. split; [reflexivity|].
  apply (pipeline_never_stuck Sample.healthy [("8.8.8.8", false)]
           [Inner 0 RunPtr; SelectTick] _ eq_refl eq_refl).
Defined.

Section WorkBound.
Variable W : World.

Lemma init_measure (launched : list (string * bool)) :
  measure (pipeline_init (length launched) launched) = 8 * length launched + 2.
Proof.
  unfold measure. cbn.
  enough (sum_list (map emeasure
            (map (fun a => mkEnricher (lookup_init (fst a) (snd a)) Running) launched))
          = 8 * length launched) by lia.
  induction launched as [|a l IH]; [done|].
  cbn. rewrite IH.
  change (emeasure (mkEnricher (lookup_init (fst a) (snd a)) Running)) with 8. lia.
Qed.

Lemma step_measure_le (launched : list (string * bool)) (s s' : State) (a : Action) :
  Inv launched s -> step W s a = Some s' ->
  measure s' + (if is_work a then 1 else 0) <= measure s.
Proof.
  intros Hinv Hstep. destruct (is_work a) eqn:Hw.
  - enough (Hn : exited s' = None)
      by (pose proof (step_measure W _ _ _ Hstep Hw Hn); lia).
    unfold step in Hstep. destruct (exited s) eqn:Hex; [discriminate|].
    destruct a as [i la|i|i| | | | | | | | ]; try discriminate Hw.
    all: repeat case_match; simplify_eq; cbn; try done.
    match goal with
    | Hc : chanClosed s = true, Hi : enrichers s !! _ = Some _ |- _ =>
        pose proof (all_exited_lookup _ _ _ (inv_closed _ _ Hinv Hc) Hi)
    end. done.
  - unfold step in Hstep. destruct (exited s) eqn:Hex; [discriminate|].
    destruct a as [i la|i|i| | | | | | | | ]; try discriminate Hw.
    all: repeat case_match; simplify_eq; unfold measure; cbn; lia.
Qed.

Lemma run_work_steps (launched : list (string * bool)) (sched : list Action)
      (s s' : State) :
  Inv launched s -> run W s sched = Some s' ->
  work_steps sched + measure s' <= measure s.
Proof.
  revert s. induction sched as [|a sched IH]; intros s Hinv Hrun; cbn in Hrun.
  - injection Hrun as <-. cbn. lia.
  - destruct (step W s a) as [s1|] eqn:Hs; [|done].
    pose proof (step_measure_le launched _ _ _ Hinv Hs) as Hle.
    apply IH in Hrun; [|by eapply step_inv].
    unfold work_steps in *. cbn. destruct (is_work a); cbn; lia.
Qed.
End WorkBound.

(** X9.  The working goroutines of a run with [n] selected Addresses
    take at most [8 n + 2] steps in all, whatever the schedule: per
    Address at most five steps of the inner goroutines, the send, the
    [wg.Done()] and the receive by the collector, plus the two
    closes. *)
Theorem work_is_bounded
        (W : World) (launched : list (string * bool)) (sched : list Action) (s : State) :
  run W (pipeline_init (length launched) launched) sched = Some s ->
  work_steps sched <= 8 * length launched + 2.
Proof.
  intros Hrun.
  pose proof (run_work_steps W launched sched _ _ (init_inv _ launched) Hrun) as H.
  rewrite init_measure in H. lia.
Qed.

Lemma work_is_bounded_witness :
  run Sample.healthy (pipeline_init (length [("8.8.8.8", false)]) [("8.8.8.8", false)])
      [Inner 0 RunPtr; Inner 0 RunMeta; Send 0; WgDone 0;
       CloseChan; Collect; CloseDone; SelectDone] <> None
  /\ work_steps [Inner 0 RunPtr; Inner 0 RunMeta; Send 0; WgDone 0;
                 CloseChan; Collect; CloseDone; SelectDone] <= 8 * 1 + 2.
Proof.
  split; [vm_compute; discriminate|].
  destruct (run Sample.healthy
              (pipeline_init (length [("8.8.8.8", false)]) [("8.8.8.8", false)])
              [Inner 0 RunPtr; Inner 0 RunMeta; Send 0; WgDone 0;
               CloseChan; Collect; CloseDone; SelectDone]) as [s|] eqn:Hrun.
  - exact (work_is_bounded Sample.healthy [("8.8.8.8", false)] _ s Hrun).
  - vm_compute in Hrun. discriminate Hrun.
Defined.

(** ** More on [main] *)

Section MainOutput.
Variable W : World.

Lemma status_not_cancelled (status : list Out) :
  forallb is_status status = true -> OutCancelled ∉ status.
Proof.
  rewrite forallb_forall. intros Hs Hin%list_elem_of_In.
  by specialize (Hs _ Hin).
Qed.

Lemma layout_done_not_cancelled (status : list Out) (rs : list Result) :
  forallb is_status status = true ->
  OutCancelled ∉ OutChecking :: status
                 ++ OutClear :: map (fun r => OutBlock (printResult r)) rs.
Proof.
  intros Hs [H|H]%elem_of_cons; [done|].
  apply elem_of_app in H as [H|H]; [by apply (status_not_cancelled status)|].
  apply elem_of_cons in H as [H|H]; [done|].
  by apply list_elem_of_fmap in H as (r & Hr & _).
Qed.

Lemma one_interrupt (o : list Out) :
  length (List.filter is_interrupt o) = 1 -> OutInterrupt ∈ o.
Proof.
  intros Hlen.
  destruct (List.filter is_interrupt o) as [|x l] eqn:Hf; [done|].
  assert (Hx : In x (List.filter is_interrupt o)) by (rewrite Hf; by left).
  apply filter_In in Hx as [Hin Hx]. apply list_elem_of_In in Hin.
  by destruct x.
Qed.

(** A run of the pipeline that ended, seen through both invariants. *)
Lemma exited_layout (launched : list (string * bool)) (sched : list Action)
      (s : State) (c : Z) :
  run W (pipeline_init (length launched) launched) sched = Some s ->
  exited s = Some c ->
  exists status,
    forallb is_status status = true
    /\ ((OutInterrupt ∈ status
         /\ stdout s = OutChecking :: status ++ [OutCancelled])
        \/ exists rs,
            map raddr rs ≡ₚ launched
            /\ stdout s = OutChecking :: status
                          ++ OutClear :: map (fun r => OutBlock (printResult r)) rs).
Proof.
  intros Hrun Hex. destruct (reachable_inv W _ _ _ Hrun) as [Hinv Hinv2].
  destruct (inv_layout _ _ Hinv2) as (status & Hstatus & Hlayout).
  rewrite Hex in Hlayout. exists status. split; [done|].
  destruct Hlayout as [[Hc Hout]|Hout].
  - left. split; [|done].
    pose proof (inv_signal _ _ Hinv2) as Hsig.
    rewrite (inv_cancel _ _ Hinv2 Hc), Hout in Hsig.
    apply one_interrupt in Hsig.
    apply elem_of_cons in Hsig as [Hsig|Hsig]; [done|].
    apply elem_of_app in Hsig as [Hsig|Hsig]; [done|].
    by apply list_elem_of_singleton in Hsig.
  - right. exists (results s). split; [|done].
    apply done_results; [done|].
    pose proof (inv_exit _ _ Hinv) as He. rewrite Hex in He.
    destruct He as [_ [[Hin _]|(_ & Hd & _)]]; [|done].
    rewrite Hout in Hin. by apply layout_done_not_cancelled in Hin.
Qed.

End MainOutput.

Lemma printed_by_main_status (status : list Out) :
  forallb is_status status = true ->
  forallb is_progress (printed_by_main status) = true.
Proof.
  unfold printed_by_main. induction status as [|o status IH]; [done|].
  cbn. intros [Ho Hs]%andb_prop. destruct o; try done; cbn; auto.
Qed.

Lemma printed_by_main_blocks (rs : list Result) :
  printed_by_main (map (fun r => OutBlock (printResult r)) rs)
  = map (fun r => OutBlock (printResult r)) rs.
Proof.
  unfold printed_by_main. induction rs as [|r rs IH]; [done|]. cbn. by rewrite IH.
Qed.

(** X10.  What the [main] goroutine itself prints in a run that gets
    past validation and resolution is, in this order: the first
    message, progress lines, and then either [Operation cancelled] as
    its last print, or the erasure of the progress line followed by one
    block per selected Address and nothing else; no progress line
    follows the erasure. *)
Theorem output_layout
        (W : World) (cli : CLI) (sched : list Action) (x : Exit) (ips : list net_IP) :
  main W cli sched = Some x ->
  fst (validateInput W (Target cli)) = None ->
  fst (candidates W (Target cli)) = inr ips ->
  exists progress,
    forallb is_progress progress = true
    /\ (printed_by_main (out x) = OutChecking :: progress ++ [OutCancelled]
        \/ exists rs,
            map raddr rs ≡ₚ selection W cli ips
            /\ printed_by_main (out x)
               = OutChecking :: progress
                 ++ OutClear :: map (fun r => OutBlock (printResult r)) rs).
Proof.
  intros Hmain Hv Hc. apply main_cases in Hmain. rewrite Hv, Hc in Hmain.
  destruct Hmain as (s & c & Hrun & Hex & ->). cbn.
  destruct (exited_layout W _ _ _ _ Hrun Hex)
    as (status & Hstatus & [[Hi Hout]|(rs & Hp & Hout)]).
  all: exists (printed_by_main status).
  all: split; [by apply printed_by_main_status|].
  - left. rewrite Hout. unfold printed_by_main. cbn.
    by rewrite List.filter_app.
  - right. exists rs. split; [done|]. rewrite Hout.
    unfold printed_by_main at 1. cbn. rewrite List.filter_app. cbn.
    fold (printed_by_main status).
    fold (printed_by_main (map (fun r => OutBlock (printResult r)) rs)).
    by rewrite printed_by_main_blocks.
Qed.

Lemma output_layout_witness :
  main Sample.healthy (Sample.cli false false "8.8.8.8")
       [SelectTick; Signal; Cancel; SelectCancelled]
  = Some (mkExit 0 [OutChecking; OutProgress 0 1; OutInterrupt; OutCancelled] [])
  /\ fst (validateInput Sample.healthy "8.8.8.8") = None
  /\ fst (candidates Sample.healthy "8.8.8.8") = inr [Sample.google_v4]
  /\ exists progress,
      forallb is_progress progress = true
      /\ (printed_by_main [OutChecking; OutProgress 0 1; OutInterrupt; OutCancelled]
          = OutChecking :: progress ++ [OutCancelled]
          \/ exists rs,
              map raddr rs
              ≡ₚ selection Sample.healthy (Sample.cli false false "8.8.8.8")
                   [Sample.google_v4]
              /\ printed_by_main
                   [OutChecking; OutProgress 0 1; OutInterrupt; OutCancelled]
                 = OutChecking :: progress
                   ++ OutClear :: map (fun r => OutBlock (printResult r)) rs).
Proof.
  split; [reflexivity|]. split; [reflexivity|]. split; [reflexivity|].
  apply (output_layout Sample.healthy (Sample.cli false false "8.8.8.8")
           [SelectTick; Signal; Cancel; SelectCancelled]
           (mkExit 0 [OutChecking; OutProgress 0 1; OutInterrupt; OutCancelled] [])
           [Sample.google_v4]); reflexivity.
Defined.

(** X11.  Only the signal goroutine cancels a run: whenever a run
    prints [Operation cancelled] it has printed [Interrupt received]
    before, and no run prints [Interrupt received] more than once
    (the HTTP timeout never cancels the run). *)
Theorem cancellation_comes_from_signal
        (W : World) (cli : CLI) (sched : list Action) (x : Exit) :
  main W cli sched = Some x ->
  ((OutCancelled ∈ out x) ->
   exists before after,
     out x = before ++ OutInterrupt :: after ++ [OutCancelled])
  /\ length (List.filter is_interrupt (out x)) <= 1.
Proof.
  intros Hmain. apply main_cases in Hmain.
  destruct (fst (validateInput W (Target cli))) as [err|].
  { subst x. cbn. split; [|lia].
    intros H%list_elem_of_singleton. discriminate H. }
  destruct (fst (candidates W (Target cli))) as [err|ips].
  { subst x. cbn. split; [|lia].
    intros H%list_elem_of_singleton. discriminate H. }
  destruct Hmain as (s & c & Hrun & Hex & ->). cbn.
  destruct (reachable_inv W _ _ _ Hrun) as [_ Hinv2].
  split.
  - intros Hin.
    destruct (exited_layout W _ _ _ _ Hrun Hex)
      as (status & Hstatus & [[Hi Hout]|(rs & _ & Hout)]).
    + apply list_elem_of_split in Hi as (l1 & l2 & ->).
      exists (OutChecking :: l1), l2. rewrite Hout. cbn. by rewrite <- app_assoc.
    + rewrite Hout in Hin. by apply layout_done_not_cancelled in Hin.
  - rewrite (inv_signal _ _ Hinv2). destruct (sig_pc s); lia.
Qed.

Lemma cancellation_comes_from_signal_witness :
  main Sample.healthy (Sample.cli false false "8.8.8.8")
       [Signal; SelectTick; Cancel; SelectCancelled]
  = Some (mkExit 0 [OutChecking; OutInterrupt; OutProgress 0 1; OutCancelled] [])
  /\ (OutCancelled ∈ [OutChecking; OutInterrupt; OutProgress 0 1; OutCancelled])
  /\ exists before after,
      [OutChecking; OutInterrupt; OutProgress 0 1; OutCancelled]
      = before ++ OutInterrupt :: after ++ [OutCancelled].
Proof.
  split; [reflexivity|]. split; [rewrite !elem_of_cons; auto|].
  apply (proj1 (cancellation_comes_from_signal Sample.healthy
                  (Sample.cli false false "8.8.8.8")
                  [Signal; SelectTick; Cancel; SelectCancelled]
                  (mkExit 0 [OutChecking; OutInterrupt; OutProgress 0 1; OutCancelled] [])
                  eq_refl)).
  cbn. rewrite !elem_of_cons; auto.
Defined.

(** X12.  Every progress line [p/t completed] that a run prints has
    [t] equal to the number of selected Addresses and [p] at most
    [t]. *)
Theorem progress_lines_bounded
        (W : World) (cli : CLI) (sched : list Action) (x : Exit)
        (processed total : nat) :
  main W cli sched = Some x ->
  (OutProgress processed total ∈ out x) ->
  processed <= total
  /\ exists ips,
      fst (candidates W (Target cli)) = inr ips
      /\ total = length (selection W cli ips).
Proof.
  intros Hmain Hin. apply main_cases in Hmain.
  destruct (fst (validateInput W (Target cli))) as [err|].
  { subst x. apply list_elem_of_singleton in Hin. discriminate Hin. }
  destruct (fst (candidates W (Target cli))) as [err|ips].
  { subst x. apply list_elem_of_singleton in Hin. discriminate Hin. }
  destruct Hmain as (s & c & Hrun & Hex & ->). cbn in Hin.
  destruct (reachable_inv W _ _ _ Hrun) as [_ Hinv2].
  pose proof (inv_progress _ _ Hinv2) as Hp. rewrite Forall_forall in Hp.
  destruct (Hp _ Hin) as [Hle ->]. eauto.
Qed.

Lemma progress_lines_bounded_witness :
  main Sample.healthy (Sample.cli false false "8.8.8.8")
       [SelectTick; Signal; Cancel; SelectCancelled]
  = Some (mkExit 0 [OutChecking; OutProgress 0 1; OutInterrupt; OutCancelled] [])
  /\ (OutProgress 0 1 ∈ [OutChecking; OutProgress 0 1; OutInterrupt; OutCancelled])
  /\ 0 <= 1.
Proof.
  split; [reflexivity|]. split; [rewrite !elem_of_cons; auto|].
  apply (progress_lines_bounded Sample.healthy (Sample.cli false false "8.8.8.8")
           [SelectTick; Signal; Cancel; SelectCancelled]
           (mkExit 0 [OutChecking; OutProgress 0 1; OutInterrupt; OutCancelled] [])
           0 1 eq_refl).
  cbn. rewrite !elem_of_cons; auto.
Defined.

Section FamilyFilter.
Variable W : World.

Lemma selection_family (cli : CLI) (ips : list net_IP) (v6 : bool) (a : string * bool) :
  IPv4 cli = negb v6 -> IPv6 cli = v6 ->
  a ∈ selection W cli ips -> snd a = v6.
Proof.
  intros H4 H6. unfold selection.
  intros (ip & -> & Hin)%list_elem_of_fmap.
  apply list_elem_of_In, filter_In in Hin as [_ Hsel].
  unfold selected in Hsel. rewrite H4, H6 in Hsel. cbn.
  by destruct v6, (isIPv6_of W ip).
Qed.

Lemma selection_sublist (cli : CLI) (ips : list net_IP) :
  selection W cli ips
  `sublist_of` map (fun ip => (IP_String W ip, isIPv6_of W ip)) ips.
Proof.
  unfold selection. induction ips as [|ip ips IH]; [done|].
  cbn. destruct (selected cli (isIPv6_of W ip)); cbn.
  - by apply sublist_skip.
  - by apply sublist_cons.
Qed.

Lemma selection_all (cli : CLI) (ips : list net_IP) :
  IPv4 cli = IPv6 cli ->
  selection W cli ips = map (fun ip => (IP_String W ip, isIPv6_of W ip)) ips.
Proof.
  intros Heq. unfold selection. f_equal.
  induction ips as [|ip ips IH]; [done|].
  cbn. rewrite IH. unfold selected. rewrite Heq.
  by destruct (IPv6 cli), (isIPv6_of W ip).
Qed.
End FamilyFilter.

(** X13.  With exactly one family requested, every block a run prints
    is for an Address of that family: its first line is an [A Record]
    line under [-4] and an [AAAA Record] line under [-6]. *)
Theorem blocks_match_family
        (W : World) (cli : CLI) (sched : list Action) (x : Exit) (v6 : bool) :
  main W cli sched = Some x ->
  IPv4 cli = negb v6 ->
  IPv6 cli = v6 ->
  Forall (fun block =>
            exists ip,
              head block
              = Some ((if v6 then "AAAA" else "A") +:+ " Record: " +:+ ip))
         (blocks (out x)).
Proof.
  intros Hmain H4 H6. apply main_cases in Hmain.
  destruct (fst (validateInput W (Target cli))) as [err|]; [by subst x|].
  destruct (fst (candidates W (Target cli))) as [err|ips]; [by subst x|].
  destruct Hmain as (s & c & Hrun & Hex & ->). cbn.
  destruct (exited_run W _ _ _ _ Hrun Hex) as (_ & _ & [[_ ->]|(_ & -> & Hp)]);
    [done|].
  apply Forall_forall. intros block (r & -> & Hr)%list_elem_of_fmap.
  assert (Ha : raddr r ∈ selection W cli ips).
  { rewrite <- Hp. apply list_elem_of_fmap. eauto. }
  apply (selection_family W cli ips v6) in Ha; [|done..].
  cbn in Ha. exists (IP r). unfold printResult. rewrite Ha.
  by destruct v6.
Qed.

Lemma blocks_match_family_witness :
  main Sample.healthy (Sample.cli true false "dns.google")
       [Inner 0 RunPtr; Inner 0 RunMeta; Send 0; WgDone 0;
        CloseChan; Collect; CloseDone; SelectDone]
  = Some (mkExit 0
            [OutChecking; OutClear;
             OutBlock ["A Record: 8.8.8.8"; "  PTR Records: dns.google.";
                       "  City: "; "  Region: "; "  Country: ";
                       "  Location: "; "  Organization: "; ""]]
            [CallLookupHost "dns.google"; CallLookupIP "dns.google"])
  /\ Forall (fun block => exists ip, head block = Some ("A" +:+ " Record: " +:+ ip))
            [["A Record: 8.8.8.8"; "  PTR Records: dns.google.";
              "  City: "; "  Region: "; "  Country: ";
              "  Location: "; "  Organization: "; ""]].
Proof.
  split; [reflexivity|].
  apply (blocks_match_family Sample.healthy (Sample.cli true false "dns.google")
           [Inner 0 RunPtr; Inner 0 RunMeta; Send 0; WgDone 0;
            CloseChan; Collect; CloseDone; SelectDone]
           (mkExit 0
              [OutChecking; OutClear;
               OutBlock ["A Record: 8.8.8.8"; "  PTR Records: dns.google.";
                         "  City: "; "  Region: "; "  Country: ";
                         "  Location: "; "  Organization: "; ""]]
              [CallLookupHost "dns.google"; CallLookupIP "dns.google"])
           false); reflexivity.
Defined.

(** X14.  The launch loop keeps the order of the resolved addresses and
    never starts more enrichers than there are addresses; with both
    family flags set it starts one for every address, exactly as with
    neither flag. *)
Theorem launch_loop_keeps_order (W : World) (cli : CLI) (ips : list net_IP) :
  snd (launch_loop W cli ips)
  `sublist_of` map (fun ip => (IP_String W ip, isIPv6_of W ip)) ips
  /\ fst (launch_loop W cli ips) <= length ips
  /\ (IPv4 cli = IPv6 cli ->
      launch_loop W cli ips
      = (length ips, map (fun ip => (IP_String W ip, isIPv6_of W ip)) ips)).
Proof.
  rewrite launch_loop_selection. cbn.
  pose proof (selection_sublist W cli ips) as Hsub.
  split; [done|]. split.
  - apply sublist_length in Hsub. by rewrite length_map in Hsub.
  - intros Heq. by rewrite (selection_all W cli ips Heq), length_map.
Qed.

Lemma launch_loop_keeps_order_witness :
  launch_loop Sample.healthy (Sample.cli true true "dns.google")
              [Sample.google_v4; Sample.google_v6]
  = (2, [("8.8.8.8", false); ("2001:4860:4860::8888", true)]).
Proof.
  exact (proj2 (proj2 (launch_loop_keeps_order Sample.healthy
                         (Sample.cli true true "dns.google")
                         [Sample.google_v4; Sample.google_v6])) eq_refl).
Defined.

(** X15.  A Target that is not a literal address is resolved before any
    enricher starts, by [net.LookupHost] in [validateInput] and then
    again by [net.LookupIP]: when the first fails every run exits with
    code 1 after that one call, printing only the validation error and
    starting nothing; when the second fails every run exits with code 1
    after both calls and prints the resolution error and no block; and
    when both succeed every run makes exactly these two calls, in this
    order. *)
Theorem domain_is_resolved_twice
        (W : World) (cli : CLI) (sched : list Action) (x : Exit) :
  net_ParseIP W (Target cli) = None ->
  main W cli sched = Some x ->
  match net_LookupHost W (Target cli) with
  | inl err =>
      x = mkExit 1 [OutError ("invalid domain or IP address: " +:+ err)]
                 [CallLookupHost (Target cli)]
  | inr _ =>
      calls x = [CallLookupHost (Target cli); CallLookupIP (Target cli)]
      /\ match net_LookupIP W (Target cli) with
         | inl err =>
             code x = 1%Z /\ (OutLookupError err ∈ out x) /\ blocks (out x) = []
         | inr ips => code x = 0%Z
         end
  end.
Proof.
  intros Hparse Hmain. apply main_cases in Hmain.
  unfold validateInput, candidates, call_LookupHost, call_LookupIP in Hmain.
  rewrite Hparse in Hmain. cbn in Hmain.
  destruct (net_LookupHost W (Target cli)) as [err|addrs]; cbn in Hmain; [done|].
  destruct (net_LookupIP W (Target cli)) as [err|ips]; cbn in Hmain.
  - subst x. cbn. repeat split. by apply list_elem_of_singleton.
  - destruct Hmain as (s & c & Hrun & Hex & ->). cbn. split; [done|].
    by destruct (exited_run W _ _ _ _ Hrun Hex) as (-> & _).
Qed.

Lemma domain_is_resolved_twice_witness :
  net_ParseIP Sample.healthy (Target (Sample.cli false false "nosuch.invalid")) = None
  /\ main Sample.healthy (Sample.cli false false "nosuch.invalid") []
     = Some (mkExit 1 [OutError ("invalid domain or IP address: " +:+ "no such host")]
                    [CallLookupHost "nosuch.invalid"]).
Proof.
  split; [reflexivity|].
  destruct (main Sample.healthy (Sample.cli false false "nosuch.invalid") [])
    as [x|] eqn:Hmain; [|vm_compute in Hmain; discriminate Hmain].
  f_equal.
  exact (domain_is_resolved_twice Sample.healthy
           (Sample.cli false false "nosuch.invalid") [] x eq_refl Hmain).
Defined.

(** ** Rendering *)

Lemma append_nil_r (s : string) : s +:+ "" = s.
Proof. induction s as [|c s IH]; [done|]. cbn. unfold String.append in *. cbn. by rewrite IH. Qed.

Lemma append_assoc (s1 s2 s3 : string) : (s1 +:+ s2) +:+ s3 = s1 +:+ s2 +:+ s3.
Proof.
  induction s1 as [|c s1 IH]; [done|].
  change ((String c s1 +:+ s2) +:+ s3) with (String c ((s1 +:+ s2) +:+ s3)).
  change (String c s1 +:+ s2 +:+ s3) with (String c (s1 +:+ s2 +:+ s3)).
  by rewrite IH.
Qed.

(** Every element of a joined list occurs in the joined string. *)
Lemma strings_Join_mentions (l : list string) (sep name : string) :
  name ∈ l -> exists pre post, strings_Join l sep = pre +:+ name +:+ post.
Proof.
  induction l as [|s l IH]; [by intros ?%elem_of_nil|].
  intros [->|Hin]%elem_of_cons.
  - destruct l as [|s' l].
    + exists "", "". by rewrite append_nil_r.
    + exists "", (sep +:+ strings_Join (s' :: l) sep). reflexivity.
  - destruct l as [|s' l]; [by apply elem_of_nil in Hin|].
    destruct (IH Hin) as (pre & post & Heq).
    exists (s +:+ sep +:+ pre), post.
    change (strings_Join (s :: s' :: l) sep)
      with (s +:+ sep +:+ strings_Join (s' :: l) sep).
    by rewrite Heq, !append_assoc.
Qed.

Lemma block_ends_with_error {A} (h p i : list A) (e b : A) :
  h ++ p ++ i ++ [e] ++ [b] = (h ++ p ++ i) ++ [e; b].
Proof. by rewrite <- !app_assoc. Qed.

(** X16.  The block rendered for a Result shows what the Result holds:
    its first line is the record line ([A] or [AAAA] by the family
    flag) with the address, its last line is empty, every PTR name
    occurs in the PTR line, the five metadata lines are there when the
    Metadata Record is, and the block has an error line -- its last
    but one, with the error text -- exactly when the Result has an
    error. *)
Theorem printResult_shows_result (r : Result) :
  head (printResult r)
  = Some ((if IsIPv6 r then "AAAA" else "A") +:+ " Record: " +:+ IP r)
  /\ last (printResult r) = Some ""
  /\ (forall name,
         name ∈ PTR r ->
         exists pre post,
           ("  PTR Records: " +:+ pre +:+ name +:+ post) ∈ printResult r)
  /\ (forall i,
         Info r = Some i ->
         exists before after,
           printResult r
           = before
             ++ ["  City: " +:+ City i; "  Region: " +:+ Region i;
                 "  Country: " +:+ Country i; "  Location: " +:+ Loc i;
                 "  Organization: " +:+ Org i]
             ++ after)
  /\ (forall e,
         Error r = Some e ->
         exists before, printResult r = before ++ ["  Error: " +:+ e; ""])
  /\ (Error r = None ->
      Forall (fun line => String.prefix "  Error: " line = false) (printResult r)).
Proof.
  unfold printResult. split; [by destruct (IsIPv6 r)|]. split.
  { rewrite !app_assoc. by rewrite last_snoc. }
  split; [|split; [|split]].
  - intros name Hin.
    destruct (strings_Join_mentions (PTR r) ", " name Hin) as (pre & post & Heq).
    exists pre, post.
    rewrite bool_decide_true by (destruct (PTR r); [by apply elem_of_nil in Hin|cbn; lia]).
    rewrite Heq. apply elem_of_app. right. apply elem_of_app. left.
    by apply list_elem_of_singleton.
  - intros i ->. eexists (_ ++ _), _. by rewrite <- app_assoc.
  - intros e ->. eexists. apply block_ends_with_error.
  - intros ->. repeat apply Forall_app_2.
    + repeat constructor. by destruct (IsIPv6 r).
    + case_bool_decide; by repeat constructor.
    + destruct (Info r); by repeat constructor.
    + constructor.
    + by repeat constructor.
Qed.

Lemma printResult_shows_result_witness :
  exists before,
    printResult (mkResult "8.8.8.8" ["dns.google."] None false
                          (Some "error fetching IP info: context canceled"))
    = before ++ ["  Error: " +:+ "error fetching IP info: context canceled"; ""].
Proof.
  destruct (printResult_shows_result
              (mkResult "8.8.8.8" ["dns.google."] None false
                        (Some "error fetching IP info: context canceled")))
    as (_ & _ & _ & _ & He & _).
  exact (He _ eq_refl).
Defined.


(** ** The sequential variant *)

Section SequentialRuns.
Import SequentialMain.
Variable W : World.

Lemma insert_middle {A} (pre suf : list A) (x y : A) :
  <[length pre := y]> (pre ++ x :: suf) = pre ++ y :: suf.
Proof.
  rewrite <- (Nat.add_0_r (length pre)). by rewrite insert_app_r.
Qed.

Lemma all_done_exited (launched : list (string * bool)) :
  all_done (map (fun a => mkWorker a WExit) launched) = true.
Proof. induction launched as [|a l IH]; [done|]. by cbn. Qed.

(** Running the workers of [suf] one after the other appends their
    Results in order. *)
Lemma run_one_by_one (suf : list (string * bool)) (pre : list Worker)
      (rs : list Result) (o : list SOut) :
  srun W {| workers := pre ++ map (fun a => mkWorker a WStart) suf;
            sresults := rs; sdone_closed := false;
            sstdout := o; sexited := None |}
       (one_by_one (length pre) (length suf))
  = Some {| workers := pre ++ map (fun a => mkWorker a WExit) suf;
            sresults := rs ++ map (fun a => Sequential.lookupIP W (fst a) (snd a)) suf;
            sdone_closed := false; sstdout := o; sexited := None |}.
Proof.
  revert pre rs. induction suf as [|a suf IH]; intros pre rs.
  - cbn. by rewrite !app_nil_r.
  - unfold one_by_one. cbn [length seq flat_map app map].
    cbn [srun]. unfold sstep at 1. cbn [sexited workers].
    rewrite list_lookup_middle by done. cbn [wpc sresults].
    unfold set_worker. cbn [workers sresults sdone_closed sstdout sexited].
    rewrite insert_middle.
    unfold sstep at 1. cbn [sexited workers].
    rewrite list_lookup_middle by done. cbn [wpc sresults].
    unfold set_worker. cbn [workers sresults sdone_closed sstdout sexited].
    rewrite insert_middle.
    unfold sstep at 1. cbn [sexited workers].
    rewrite list_lookup_middle by done. cbn [wpc sresults].
    unfold set_worker. cbn [workers sresults sdone_closed sstdout sexited].
    rewrite insert_middle.
    specialize (IH (pre ++ [mkWorker a WExit])
                   (rs ++ [Sequential.lookupIP W (fst a) (snd a)])).
    rewrite length_app, Nat.add_1_r, <- !app_assoc in IH. cbn [app] in IH.
    unfold one_by_one in IH. by rewrite IH.
Qed.

Lemma srun_app (s : SState) (sched1 sched2 : list SAction) :
  srun W s (sched1 ++ sched2)
  = match srun W s sched1 with
    | Some s1 => srun W s1 sched2
    | None => None
    end.
Proof.
  revert s. induction sched1 as [|a sched1 IH]; intros s; cbn; [done|].
  destruct (sstep W s a); [apply IH|done].
Qed.

Lemma sblocks_of_results (rs : list Result) :
  sblocks (map (fun r => SBlock (printResult r)) rs) = map printResult rs.
Proof. induction rs as [|r rs IH]; [done|]. cbn. by rewrite <- IH. Qed.

Lemma sstep_single (a : string * bool) (s s' : SState) (act : SAction) :
  single W a s -> sstep W s act = Some s' -> single W a s'.
Proof.
  intros [(pc & Hw & Hpc & Hd) Hex] Hstep. unfold sstep in Hstep.
  destruct (sexited s) eqn:He; [discriminate|]. destruct Hex as [Hne Hb].
  destruct act as [i|i|i| | ]; rewrite ?Hw in Hstep.
  - destruct i as [|i]; [|done]. cbn in Hstep.
    destruct pc; try done. injection Hstep as <-.
    split; cbn; rewrite ?He, ?Hw; [|done].
    exists (WLoaded (sresults s)). cbn. repeat split; [done..|].
    intros Hdone. by specialize (Hd Hdone).
  - destruct i as [|i]; [|done]. cbn in Hstep.
    destruct pc; try done. injection Hstep as <-. destruct Hpc as [-> _].
    split; cbn; rewrite ?He, ?Hw; [|done].
    exists WStored. cbn. repeat split.
    intros Hdone. by specialize (Hd Hdone).
  - destruct i as [|i]; [|done]. cbn in Hstep.
    destruct pc; try done. injection Hstep as <-.
    split; cbn; rewrite ?He, ?Hw; [|done].
    exists WExit. cbn. by repeat split.
  - destruct (all_done [mkWorker a pc] && negb (sdone_closed s)) eqn:Hall; [|done].
    injection Hstep as <-.
    split; cbn; rewrite ?He; [|done].
    exists pc. repeat split; [done..|]. intros _.
    apply andb_prop in Hall as [Hall _]. cbn in Hall. by destruct pc.
  - destruct (sdone_closed s) eqn:Hdone; injection Hstep as <-.
    + split; cbn.
      * exists pc. by repeat split.
      * split; [done|]. unfold sblocks in *. rewrite omap_app, Hb. cbn.
        rewrite (Hd eq_refl) in Hpc. rewrite Hpc. reflexivity.
    + split; cbn; rewrite ?He.
      * exists pc. repeat split; [done..|]. by intros [=].
      * split; [by destruct (sstdout s)|].
        unfold sblocks in *. by rewrite omap_app, Hb.
Qed.

Lemma srun_single (a : string * bool) (sched : list SAction) (s s' : SState) :
  single W a s -> srun W s sched = Some s' -> single W a s'.
Proof.
  revert s. induction sched as [|act sched IH]; intros s Hs Hrun; cbn in Hrun.
  - by injection Hrun as <-.
  - destruct (sstep W s act) as [s1|] eqn:Hstep; [|done].
    eapply IH; [|done]. by eapply sstep_single.
Qed.

Lemma sinit_single (a : string * bool) : single W a (sinit [a]).
Proof. split; cbn; [|done]. exists WStart. by repeat split. Qed.

End SequentialRuns.

(** X17.  Argument handling of the sequential variant: without an
    argument it prints the help and exits with code 1; [-h] and
    [--help] print the help and exit with code 0; [-4] and [-6] take
    exactly one argument and otherwise exit with code 1 naming the
    option; the two flags are never both set; and a name that does not
    resolve ends the run with code 1 and the resolution error, all
    whatever the schedule. *)
Theorem sequential_arguments (W : World) (args : list string) (sched : list SequentialMain.SAction) :
  (length args < 2 ->
   SequentialMain.main W args sched
   = Some (1%Z, [SequentialMain.SHelp SequentialMain.showHelp]))
  /\ (2 <= length args ->
      SequentialMain.arg args 1 = "-h" \/ SequentialMain.arg args 1 = "--help" ->
      SequentialMain.main W args sched
      = Some (0%Z, [SequentialMain.SHelp SequentialMain.showHelp]))
  /\ (2 <= length args -> length args <> 3 ->
      forall option,
        option = "-4" \/ option = "-6" ->
        SequentialMain.arg args 1 = option ->
        SequentialMain.main W args sched
        = Some (1%Z, [SequentialMain.SMissing option]))
  /\ (forall input ipv4Only ipv6Only,
         SequentialMain.arguments args
         = SequentialMain.Proceed input ipv4Only ipv6Only ->
         ipv4Only && ipv6Only = false
         /\ (forall err,
                net_ParseIP W input = None ->
                net_LookupIP W input = inl err ->
                SequentialMain.main W args sched
                = Some (1%Z, [SequentialMain.SLookupError err]))).
Proof.
  unfold SequentialMain.main, SequentialMain.arguments.
  split; [|split; [|split]].
  - intros Hlen. by rewrite (proj2 (Nat.ltb_lt _ _) Hlen).
  - intros Hlen Hh. rewrite (proj2 (Nat.ltb_ge _ _) Hlen).
    by destruct Hh as [-> | ->].
  - intros Hlen Hne option Hopt Harg. rewrite (proj2 (Nat.ltb_ge _ _) Hlen).
    rewrite Harg, (proj2 (Nat.eqb_neq _ _) Hne).
    by destruct Hopt as [-> | ->].
  - intros input v4 v6 Hargs.
    destruct (length args <? 2)%nat; [done|].
    destruct (_ || _); [done|].
    destruct (String.eqb _ "-4").
    { destruct (negb _); [done|]. injection Hargs as <- <- <-.
      split; [done|]. intros err Hp Hl.
      unfold SequentialMain.started. by rewrite Hp, Hl. }
    destruct (String.eqb _ "-6").
    { destruct (negb _); [done|]. injection Hargs as <- <- <-.
      split; [done|]. intros err Hp Hl.
      unfold SequentialMain.started. by rewrite Hp, Hl. }
    injection Hargs as <- <- <-.
    split; [done|]. intros err Hp Hl.
    unfold SequentialMain.started. by rewrite Hp, Hl.
Qed.

Lemma sequential_arguments_witness :
  2 <= length ["chk"; "-4"; "-6"; "dns.google"]
  /\ length ["chk"; "-4"; "-6"; "dns.google"] <> 3
  /\ SequentialMain.main Sample.healthy ["chk"; "-4"; "-6"; "dns.google"] []
     = Some (1%Z, [SequentialMain.SMissing "-4"]).
Proof.
  split; [cbn; lia|]. split; [cbn; lia|].
  apply (proj1 (proj2 (proj2 (sequential_arguments Sample.healthy
                                ["chk"; "-4"; "-6"; "dns.google"] []))));
    [cbn; lia|cbn; lia|by left|reflexivity].
Defined.

(** X18.  In the sequential variant a Target that is a literal address
    is looked up whatever the family flags: every run that ends exits
    with code 0 and prints exactly one block, the one of the sequential
    [lookupIP] on that address; and the run of the single worker
    followed by [close(done)] and a poll is such a run. *)
Theorem sequential_literal_ignores_filter
        (W : World) (args : list string) (input : string)
        (ipv4Only ipv6Only : bool) (ip : net_IP) :
  SequentialMain.arguments args = SequentialMain.Proceed input ipv4Only ipv6Only ->
  net_ParseIP W input = Some ip ->
  (forall sched c out,
      SequentialMain.main W args sched = Some (c, out) ->
      c = 0%Z
      /\ SequentialMain.sblocks out
         = [printResult (Sequential.lookupIP W (IP_String W ip) (isIPv6_of W ip))])
  /\ SequentialMain.main W args
       [SequentialMain.Load 0; SequentialMain.Store 0; SequentialMain.Done 0;
        SequentialMain.SCloseDone; SequentialMain.Poll]
     = Some (0%Z,
             [SequentialMain.SChecking; SequentialMain.SClear;
              SequentialMain.SBlock
                (printResult (Sequential.lookupIP W (IP_String W ip)
                                                  (isIPv6_of W ip)))]).
Proof.
  intros Hargs Hparse. unfold SequentialMain.main, SequentialMain.started.
  rewrite Hargs, Hparse. split; [|reflexivity].
  intros sched c out Hmain.
  destruct (SequentialMain.srun W _ sched) as [s|] eqn:Hrun; [|done].
  destruct (SequentialMain.sexited s) as [c'|] eqn:Hex; [|done].
  injection Hmain as <- <-.
  pose proof (srun_single W _ _ _ _ (sinit_single W _) Hrun) as [_ Hs].
  by rewrite Hex in Hs.
Qed.

Lemma sequential_literal_ignores_filter_witness :
  SequentialMain.arguments ["chk"; "-6"; "8.8.8.8"]
  = SequentialMain.Proceed "8.8.8.8" false true
  /\ net_ParseIP Sample.healthy "8.8.8.8" = Some Sample.google_v4
  /\ SequentialMain.main Sample.healthy ["chk"; "-6"; "8.8.8.8"]
       [SequentialMain.Load 0; SequentialMain.Store 0; SequentialMain.Done 0;
        SequentialMain.SCloseDone; SequentialMain.Poll]
     = Some (0%Z,
             [SequentialMain.SChecking; SequentialMain.SClear;
              SequentialMain.SBlock
                (printResult (Sequential.lookupIP Sample.healthy
                                (IP_String Sample.healthy Sample.google_v4)
                                (isIPv6_of Sample.healthy Sample.google_v4)))]).
Proof.
  split; [reflexivity|]. split; [reflexivity|].
  apply (sequential_literal_ignores_filter Sample.healthy ["chk"; "-6"; "8.8.8.8"]
           "8.8.8.8" false true Sample.google_v4); reflexivity.
Defined.

(** X19.  In the sequential variant, when the workers run one after the
    other, [main] exits with code 0 and prints one block per started
    address, in the order of the addresses. *)
Theorem sequential_one_by_one
        (W : World) (args : list string) (input : string)
        (ipv4Only ipv6Only : bool) (launched : list (string * bool)) :
  SequentialMain.arguments args = SequentialMain.Proceed input ipv4Only ipv6Only ->
  SequentialMain.started W input ipv4Only ipv6Only = inr launched ->
  SequentialMain.main W args
    (SequentialMain.one_by_one 0 (length launched)
     ++ [SequentialMain.SCloseDone; SequentialMain.Poll])
  = Some (0%Z,
          SequentialMain.SChecking :: SequentialMain.SClear
          :: map (fun a => SequentialMain.SBlock
                             (printResult (Sequential.lookupIP W (fst a) (snd a))))
                 launched).
Proof.
  intros Hargs Hstarted. unfold SequentialMain.main.
  rewrite Hargs, Hstarted, srun_app. unfold SequentialMain.sinit.
  pose proof (run_one_by_one W launched [] [] [SequentialMain.SChecking]) as Hrun.
  cbn [app length] in Hrun. rewrite Hrun.
  cbn. unfold SequentialMain.sstep. cbn.
  rewrite all_done_exited. cbn. by rewrite map_map.
Qed.

Lemma sequential_one_by_one_witness :
  SequentialMain.arguments ["chk"; "dns.google"]
  = SequentialMain.Proceed "dns.google" false false
  /\ SequentialMain.started Sample.fetch_cancelled "dns.google" false false
     = inr [("8.8.8.8", false); ("2001:4860:4860::8888", true)]
  /\ SequentialMain.main Sample.fetch_cancelled ["chk"; "dns.google"]
       (SequentialMain.one_by_one 0 2
        ++ [SequentialMain.SCloseDone; SequentialMain.Poll])
     = Some (0%Z,
             SequentialMain.SChecking :: SequentialMain.SClear
             :: map (fun a => SequentialMain.SBlock
                                (printResult
                                   (Sequential.lookupIP Sample.fetch_cancelled
                                                        (fst a) (snd a))))
                    [("8.8.8.8", false); ("2001:4860:4860::8888", true)]).
Proof.
  split; [reflexivity|]. split; [reflexivity|].
  apply (sequential_one_by_one Sample.fetch_cancelled ["chk"; "dns.google"]
           "dns.google" false false
           [("8.8.8.8", false); ("2001:4860:4860::8888", true)]); reflexivity.
Defined.

(** X20.  In the sequential variant the appends to [results] are not
    synchronised: when two workers both read [results] before either
    assigns it, the Result of the one that assigns first is lost --
    [main] still exits with code 0 but prints one block fewer than
    there are started addresses. *)
Theorem sequential_append_loses_result
        (W : World) (args : list string) (input : string)
        (ipv4Only ipv6Only : bool) (a b : string * bool) (rest : list (string * bool)) :
  SequentialMain.arguments args = SequentialMain.Proceed input ipv4Only ipv6Only ->
  SequentialMain.started W input ipv4Only ipv6Only = inr (a :: b :: rest) ->
  exists out,
    SequentialMain.main W args
      ([SequentialMain.Load 0; SequentialMain.Load 1;
        SequentialMain.Store 0; SequentialMain.Store 1;
        SequentialMain.Done 0; SequentialMain.Done 1]
       ++ SequentialMain.one_by_one 2 (length rest)
       ++ [SequentialMain.SCloseDone; SequentialMain.Poll])
    = Some (0%Z, out)
    /\ SequentialMain.sblocks out
       = map (fun a => printResult (Sequential.lookupIP W (fst a) (snd a))) (b :: rest)
    /\ length (SequentialMain.sblocks out) + 1 = length (a :: b :: rest).
Proof.
  intros Hargs Hstarted. unfold SequentialMain.main.
  rewrite Hargs, Hstarted. cbn [app SequentialMain.srun].
  unfold SequentialMain.sinit. cbn [map].
  cbn. unfold SequentialMain.set_worker. cbn.
  rewrite srun_app.
  pose proof (run_one_by_one W rest
                [SequentialMain.mkWorker a SequentialMain.WExit;
                 SequentialMain.mkWorker b SequentialMain.WExit]
                [Sequential.lookupIP W (fst b) (snd b)] [SequentialMain.SChecking])
    as Hrun.
  cbn [app length] in Hrun. rewrite Hrun.
  cbn. unfold SequentialMain.sstep. cbn.
  rewrite all_done_exited. cbn. eexists. split; [reflexivity|].
  cbn. rewrite sblocks_of_results, map_map. split; [done|].
  cbn. rewrite !length_map. lia.
Qed.

Lemma sequential_append_loses_result_witness :
  SequentialMain.arguments ["chk"; "dns.google"]
  = SequentialMain.Proceed "dns.google" false false
  /\ SequentialMain.started Sample.healthy "dns.google" false false
     = inr [("8.8.8.8", false); ("2001:4860:4860::8888", true)]
  /\ exists out,
      SequentialMain.main Sample.healthy ["chk"; "dns.google"]
        ([SequentialMain.Load 0; SequentialMain.Load 1;
          SequentialMain.Store 0; SequentialMain.Store 1;
          SequentialMain.Done 0; SequentialMain.Done 1]
         ++ SequentialMain.one_by_one 2 (length (@nil (string * bool)))
         ++ [SequentialMain.SCloseDone; SequentialMain.Poll])
      = Some (0%Z, out)
      /\ SequentialMain.sblocks out
         = map (fun a => printResult (Sequential.lookupIP Sample.healthy (fst a) (snd a)))
               [("2001:4860:4860::8888", true)]
      /\ length (SequentialMain.sblocks out) + 1 = 2.
Proof.
  split; [reflexivity|]. split; [reflexivity|].
  apply (sequential_append_loses_result Sample.healthy ["chk"; "dns.google"]
           "dns.google" false false
           ("8.8.8.8", false) ("2001:4860:4860::8888", true) []); reflexivity.
Defined.
